(** * Kruskal tensors: [tensorly/kruskal_tensor.py]

    A shallow embedding of [kruskal_to_tensor], [kruskal_to_unfolded] and
    [kruskal_to_vec], together with the array primitives they call
    (Khatri-Rao product, fold/unfold, dot, transpose, sum), and the
    properties the specification states about them.

    Array entries are modelled as integers: every law below is a law of
    exact arithmetic.  A matrix keeps its column count next to its rows so
    that an empty matrix of shape [(0, R)] still knows [R]; a tensor is its
    shape together with its entries in row-major (C) order. *)

From Stdlib Require Import ZArith List Lia Bool Arith PeanoNat.
Import ListNotations.

Set Implicit Arguments.

(* ================================================================== *)
(** ** Errors *)

(** The exceptions that can reach the caller of this module. *)
Inductive error : Type :=
| IndexError       (* a list or shape index out of range *)
| ShapeMismatch    (* ranks or dimensions disagree *)
| BroadcastError.  (* operands that cannot be broadcast together *)

Inductive result (A : Type) : Type :=
| Ok (a : A)
| Err (e : error).

Arguments Ok {A} a.
Arguments Err {A} e.

Definition bind {A B : Type} (c : result A) (k : A -> result B) : result B :=
  match c with
  | Ok a => k a
  | Err e => Err e
  end.

Notation "x <- c ;; k" := (bind c (fun x => k))
  (at level 61, c at next level, right associativity).

(** [mapM f l] runs [f] over [l] from left to right and stops at the first
    error. *)
Definition mapM {A B : Type} (f : A -> result B) : list A -> result (list B) :=
  fix go (l : list A) : result (list B) :=
    match l with
    | [] => Ok []
    | a :: l' => b <- f a ;; bs <- go l' ;; Ok (b :: bs)
    end.

(* ================================================================== *)
(** ** Arrays *)

Record matrix : Type := Matrix {
  ncols : nat;
  mrows : list (list Z)
}.

Definition nrows (M : matrix) : nat := length (mrows M).

(** A matrix is well formed when every row has [ncols] entries. *)
Definition wf_matrix (M : matrix) : Prop :=
  Forall (fun row => length row = ncols M) (mrows M).

Record tensor : Type := Tensor {
  tshape : list nat;
  tdata : list Z
}.

(** Number of entries of an array of the given shape. *)
Definition size (shape : list nat) : nat := fold_right Nat.mul 1%nat shape.

Definition wf_tensor (T : tensor) : Prop :=
  length (tdata T) = size (tshape T).

Fixpoint map2 {A B C : Type} (f : A -> B -> C) (l : list A) (l' : list B)
  : list C :=
  match l, l' with
  | a :: t, b :: t' => f a b :: map2 f t t'
  | _, _ => []
  end.

Definition zsum (l : list Z) : Z := fold_right Z.add 0%Z l.

Fixpoint forallb2 {A B : Type} (f : A -> B -> bool) (l : list A) (l' : list B)
  : bool :=
  match l, l' with
  | [], [] => true
  | a :: t, b :: t' => f a b && forallb2 f t t'
  | _, _ => false
  end.

(* ------------------------------------------------------------------ *)
(** *** Multi-indices in row-major order *)

(** All multi-indices of an array of the given shape, last index fastest. *)
Fixpoint indices (shape : list nat) : list (list nat) :=
  match shape with
  | [] => [[]]
  | s :: ss => flat_map (fun i => map (cons i) (indices ss)) (seq 0 s)
  end.

(** Position of a multi-index in the row-major layout. *)
Fixpoint ravel (shape : list nat) (idx : list nat) : nat :=
  match shape, idx with
  | _ :: ss, i :: idx' => i * size ss + ravel ss idx'
  | _, _ => 0
  end.

Definition tensor_get (T : tensor) (idx : list nat) : Z :=
  nth (ravel (tshape T) idx) (tdata T) 0%Z.

Fixpoint remove_nth {A : Type} (n : nat) (l : list A) : list A :=
  match n, l with
  | _, [] => []
  | O, _ :: t => t
  | S n', a :: t => a :: remove_nth n' t
  end.

Fixpoint insert_nth {A : Type} (n : nat) (x : A) (l : list A) : list A :=
  match n, l with
  | O, _ => x :: l
  | S n', a :: t => a :: insert_nth n' x t
  | S _, [] => [x]
  end.

(* ================================================================== *)
(** ** The array primitives used by the module *)

(** Modelled from the spec: the backend's [sum(array, axis)] at [axis = 1]
    of a matrix, "sum-reduce along the rank axis": one sum per row. *)
Definition sum_axis1 (K : matrix) : list Z := map zsum (mrows K).

(** Modelled from the spec: the rows of the backend's [transpose(matrix)],
    that is the columns of the matrix. *)
Definition columns (M : matrix) : list (list Z) :=
  map (fun j => map (fun row => nth j row 0%Z) (mrows M)) (seq 0 (ncols M)).

(** Modelled from the spec: [transpose(matrix)], of shape [(R, s)] for a
    matrix of shape [(s, R)]. *)
Definition transpose (M : matrix) : matrix := Matrix (nrows M) (columns M).

(** Modelled from the spec: the backend's [dot(matrix, matrix)], the matrix
    product; the inner dimensions must agree. *)
Definition dot (A B : matrix) : result matrix :=
  if ncols A =? nrows B then
    Ok (Matrix (ncols B)
          (map (fun a => map (fun c => zsum (map2 Z.mul a c)) (columns B))
               (mrows A)))
  else Err ShapeMismatch.

(** Modelled from the spec: the array product [U * w] of a matrix of shape
    [(s, R)] with a vector, as in [factors[0]*weights]: the vector is
    broadcast along the rows, so that column [r] is scaled by [w[r]].  The
    trailing dimensions must be equal or one of them must be 1. *)
Definition mat_times_vec (U : matrix) (w : list Z) : result matrix :=
  if ncols U =? length w then
    Ok (Matrix (ncols U) (map (fun row => map2 Z.mul row w) (mrows U)))
  else if length w =? 1 then
    Ok (Matrix (ncols U) (map (map (fun x => (x * hd 0 w)%Z)) (mrows U)))
  else if ncols U =? 1 then
    Ok (Matrix (length w)
          (map (fun row => map (fun y => (hd 0 row * y)%Z) w) (mrows U)))
  else Err BroadcastError.

(* ------------------------------------------------------------------ *)
(** *** Broadcasting a mask *)

(** Modelled from the spec: part of broadcasting.  [chunks n k d] cuts [d]
    into [k] consecutive blocks of [n] entries. *)
Fixpoint chunks (n k : nat) (d : list Z) : list (list Z) :=
  match k with
  | O => []
  | S k' => firstn n d :: chunks n k' (skipn n d)
  end.

(** Modelled from the spec: "broadcastable to the target tensor shape".
    [bcast ms ts d] stretches the row-major entries [d] of an array of
    shape [ms] to shape [ts], both of the same number of dimensions: a
    dimension is kept when it agrees and repeated when it is 1. *)
Fixpoint bcast (ms ts : list nat) (d : list Z) : result (list Z) :=
  match ms, ts with
  | [], [] => Ok d
  | m :: ms', t :: ts' =>
      if m =? t then
        r <- mapM (bcast ms' ts') (chunks (size ms') m d) ;; Ok (concat r)
      else if m =? 1 then
        r <- bcast ms' ts' d ;; Ok (concat (repeat r t))
      else Err BroadcastError
  | _, _ => Err BroadcastError
  end.

(** Modelled from the spec: part of broadcasting.  Missing leading
    dimensions count as 1. *)
Definition pad_shape (ms ts : list nat) : list nat :=
  repeat 1 (length ts - length ms) ++ ms.

(** Modelled from the spec: the mask "broadcastable to the target tensor
    shape", stretched to that shape and laid out in row-major order. *)
Definition broadcast_to (m : tensor) (shape : list nat) : result (list Z) :=
  if length (tshape m) <=? length shape then
    bcast (pad_shape (tshape m) shape) shape (tdata m)
  else Err BroadcastError.

Fixpoint broadcastable_dims (ms ts : list nat) : bool :=
  match ms, ts with
  | [], [] => true
  | m :: ms', t :: ts' => ((m =? t) || (m =? 1)) && broadcastable_dims ms' ts'
  | _, _ => false
  end.

(** A mask shape [ms] is broadcastable to [ts]. *)
Definition broadcastable (ms ts : list nat) : bool :=
  (length ms <=? length ts) && broadcastable_dims (pad_shape ms ts) ts.

(* ------------------------------------------------------------------ *)
(** *** Khatri-Rao product *)

(** Modelled from the spec: the "column-wise Kronecker (outer) product" of
    two matrices, "whose columns are the flattened outer products of the
    corresponding input columns": row [(i, j)] is the entrywise product of
    row [i] of [A] and row [j] of [B]. *)
Definition kr2 (A B : matrix) : matrix :=
  Matrix (ncols A)
    (flat_map (fun a => map (fun b => map2 Z.mul a b) (mrows B)) (mrows A)).

(** Modelled from the spec: the product of no matrix at rank [R], of shape
    [(1, R)] (the empty product of the [s_i]): one row of ones. *)
Definition ones (R : nat) : matrix := Matrix R [repeat 1%Z R].

(** Modelled from the spec: the Khatri-Rao product of a list of matrices,
    built from the left. *)
Definition kr (R : nat) (ms : list matrix) : matrix :=
  match ms with
  | [] => ones R
  | U :: rest => fold_left kr2 rest U
  end.

(** Modelled from the spec: "all factors except [U_mode]".  The factors
    whose position is not [skip], positions counted from [i]. *)
Fixpoint skip_from (i : Z) (skip : Z) (ms : list matrix) : list matrix :=
  match ms with
  | [] => []
  | U :: rest =>
      if (i =? skip)%Z then skip_from (i + 1) skip rest
      else U :: skip_from (i + 1) skip rest
  end.

(** Modelled from the spec: the [skip_matrix] argument of [khatri_rao]. *)
Definition skip_matrices (skip_matrix : option Z) (ms : list matrix)
  : list matrix :=
  match skip_matrix with
  | None => ms
  | Some k => skip_from 0 k ms
  end.

(** Modelled from the spec: the mask "applied multiplicatively" during the
    product.  Entry [p] of the flattened mask multiplies row [p]. *)
Definition apply_mask (K : matrix) (mflat : list Z) : matrix :=
  Matrix (ncols K)
    (map2 (fun row c => map (fun x => (x * c)%Z) row) (mrows K) mflat).

(** Modelled from the spec: [tenalg.khatri_rao(factors, skip_matrix=None,
    mask=None)], which is imported by this module but whose source is not
    part of it.  It returns the "column-wise Kronecker (outer) product" of
    the factors that are not skipped, a matrix "of shape (prod of s_i for i
    not skipped, R)", "fails if ranks disagree", and applies the mask
    "during that computation": the mask is broadcast to the shape
    [(s_1, ..., s_N)] and multiplies the rows before they are returned.
    The rank [R] is read off the first factor; an empty factor list has
    none. *)
Definition khatri_rao (factors : list matrix) (skip_matrix : option Z)
  (mask : option tensor) : result matrix :=
  match factors with
  | [] => Err IndexError
  | U0 :: _ =>
      let R := ncols U0 in
      if forallb (fun U => ncols U =? R) factors then
        let ms := skip_matrices skip_matrix factors in
        let K := kr R ms in
        match mask with
        | None => Ok K
        | Some m =>
            mflat <- broadcast_to m (map nrows ms) ;; Ok (apply_mask K mflat)
        end
      else Err ShapeMismatch
  end.

(* ------------------------------------------------------------------ *)
(** *** Folding and unfolding *)

(** Modelled from the spec: [tl.fold(flat_array, mode, target_shape)], the
    "inverse of mode-[mode] unfolding": the entry of the result at a
    multi-index is read from the unfolding, whose leading dimension is the
    selected mode and whose other dimensions keep their order. *)
Definition fold (v : list Z) (mode : nat) (shape : list nat) : result tensor :=
  match nth_error shape mode with
  | None => Err IndexError
  | Some d =>
      let full_shape := d :: remove_nth mode shape in
      if length v =? size full_shape then
        Ok (Tensor shape
              (map (fun idx =>
                      nth (ravel full_shape
                             (nth mode idx 0%nat :: remove_nth mode idx))
                          v 0%Z)
                   (indices shape)))
      else Err ShapeMismatch
  end.

(** Modelled from the spec: the mode-[mode] unfolding, "a 2-D reshaping of
    the tensor along one selected mode, shape (s_mode, product of remaining
    s_i)", "fixing one mode as rows and flattening the rest as columns". *)
Definition unfold (T : tensor) (mode : nat) : result matrix :=
  match nth_error (tshape T) mode with
  | None => Err IndexError
  | Some d =>
      let rest := remove_nth mode (tshape T) in
      Ok (Matrix (size rest)
            (map (fun i =>
                    map (fun idx => tensor_get T (insert_nth mode i idx))
                        (indices rest))
                 (seq 0 d)))
  end.

(** Modelled from the spec: [tl.tensor_to_vec], "flatten the result in the
    canonical mode-0-unfolding order (row-major flatten of the mode-0
    unfolding)". *)
Definition tensor_to_vec (T : tensor) : result (list Z) :=
  M <- unfold T 0 ;; Ok (concat (mrows M)).

(* ================================================================== *)
(** ** [kruskal_tensor.py] *)

(** Python's [l[i]] on a list: negative positions count from the end. *)
Definition py_getitem {A : Type} (l : list A) (i : Z) : result A :=
  let n := Z.of_nat (length l) in
  let j := if (i <? 0)%Z then (i + n)%Z else i in
  if ((0 <=? j) && (j <? n))%Z then
    match nth_error l (Z.to_nat j) with
    | Some a => Ok a
    | None => Err IndexError
    end
  else Err IndexError.

(** [kruskal_to_tensor(factors, weights=None, mask=None)].

    [factors] is a Python list owned by the caller; the assignment
    [factors[0] = factors[0]*weights] writes into it, so the function
    returns the list as it is after the call next to its result. *)
Definition kruskal_to_tensor (factors : list matrix) (weights : option (list Z))
  (mask : option tensor) : list matrix * result tensor :=
  let shape := map nrows factors in
  match weights with
  | Some w =>
      match factors with
      | [] => (factors, Err IndexError)
      | U0 :: rest =>
          match mat_times_vec U0 w with
          | Err e => (factors, Err e)
          | Ok U0' =>
              let factors' := U0' :: rest in
              (factors',
               K <- khatri_rao factors' None mask ;;
               fold (sum_axis1 K) 0 shape)
          end
      end
  | None =>
      (factors,
       K <- khatri_rao factors None mask ;; fold (sum_axis1 K) 0 shape)
  end.

(** [kruskal_to_unfolded(factors, mode)]: [factors[mode]] is evaluated
    first, then the Khatri-Rao product of the other factors. *)
Definition kruskal_to_unfolded (factors : list matrix) (mode : Z)
  : result matrix :=
  U <- py_getitem factors mode ;;
  K <- khatri_rao factors (Some mode) None ;;
  dot U (transpose K).

(** [kruskal_to_vec(factors)]. *)
Definition kruskal_to_vec (factors : list matrix)
  : list matrix * result (list Z) :=
  let '(factors', r) := kruskal_to_tensor factors None None in
  (factors', T <- r ;; tensor_to_vec T).

(* ================================================================== *)
(** ** Vocabulary of the specification *)

(** A factor of rank [R]: a matrix of shape [(s, R)]. *)
Definition factor (R : nat) (U : matrix) : Prop :=
  wf_matrix U /\ ncols U = R.

(** A factor list [U_1 .. U_N] (N >= 1) with common rank [R]. *)
Definition factor_list (R : nat) (factors : list matrix) : Prop :=
  factors <> [] /\ Forall (factor R) factors.

(** The column counts of the factors disagree. *)
Definition ranks_disagree (factors : list matrix) : Prop :=
  exists U V, In U factors /\ In V factors /\ ncols U <> ncols V.

(** The multi-index [idx] is within the tensor encoded by [factors]. *)
Definition in_bounds (idx : list nat) (factors : list matrix) : Prop :=
  Forall2 (fun i U => (i < nrows U)%nat) idx factors.

(** The rows [U_k[i_k]] selected by a multi-index, one per factor. *)
Definition cp_rows (factors : list matrix) (idx : list nat)
  : list (list Z) :=
  map2 (fun U i => nth i (mrows U) []) factors idx.

(** The entry of the encoded tensor at [idx]: the sum over the rank
    components [r] of the products [U_1[i_1][r] * ... * U_N[i_N][r]]. *)
Definition cp_entry (R : nat) (factors : list matrix) (idx : list nat) : Z :=
  zsum (fold_right (map2 Z.mul) (repeat 1%Z R) (cp_rows factors idx)).

(** [U] scaled column-wise by [w]: entry [(i, r)] becomes [U[i][r] * w[r]]. *)
Definition scale_columns (w : list Z) (U : matrix) : matrix :=
  Matrix (ncols U)
    (map (fun row =>
            map (fun r => (nth r row 0 * nth r w 0)%Z) (seq 0 (ncols U)))
         (mrows U)).

(** The factor list with its first factor scaled column-wise by [w]. *)
Definition scale_first (w : list Z) (factors : list matrix) : list matrix :=
  match factors with
  | [] => []
  | U0 :: rest => scale_columns w U0 :: rest
  end.

(** The factor list that enters the Khatri-Rao product. *)
Definition weighted (weights : option (list Z)) (factors : list matrix)
  : list matrix :=
  match weights with
  | None => factors
  | Some w => scale_first w factors
  end.

(** Weights, when given, are a vector of length [R]. *)
Definition weights_for (R : nat) (weights : option (list Z)) : Prop :=
  match weights with
  | None => True
  | Some w => length w = R
  end.

(** A mask, when given, is an array broadcastable to [shape]. *)
Definition mask_for (shape : list nat) (mask : option tensor) : Prop :=
  match mask with
  | None => True
  | Some m => wf_tensor m /\ broadcastable (tshape m) shape = true
  end.

(** The elementwise product [T * m] of a tensor with a mask that is
    broadcastable to the shape of [T]. *)
Definition tensor_times (T : tensor) (m : tensor) : result tensor :=
  mflat <- broadcast_to m (tshape T) ;;
  Ok (Tensor (tshape T) (map2 Z.mul (tdata T) mflat)).

(** The entries of a tensor read in row-major order of their multi-index. *)
Definition flatten_row_major (T : tensor) : list Z :=
  map (tensor_get T) (indices (tshape T)).

(** The row-wise sum of a matrix over its rank axis, of shape [(s,)]. *)
Definition row_sums (U : matrix) : tensor :=
  Tensor [nrows U] (map (fun i => zsum (nth i (mrows U) [])) (seq 0 (nrows U))).

(** The weighted entry at [idx]: the sum over the rank components [r] of
    [w[r] * U_1[i_1][r] * ... * U_N[i_N][r]]. *)
Definition cp_entry_weighted (w : list Z) (R : nat) (factors : list matrix)
  (idx : list nat) : Z :=
  zsum (map2 Z.mul w
          (fold_right (map2 Z.mul) (repeat 1%Z R) (cp_rows factors idx))).

(* ------------------------------------------------------------------ *)
(** *** Sample inputs *)

(** The two factors of the specification's concrete example. *)
Definition sample_U : matrix := Matrix 2 [[1; 0]; [0; 1]]%Z.
Definition sample_V : matrix := Matrix 2 [[1; 1]; [1; 1]]%Z.

(** Factors of shapes [(3, 2)], [(2, 2)] and [(4, 3)]. *)
Definition sample_A : matrix := Matrix 2 [[1; 2]; [3; 4]; [5; 6]]%Z.
Definition sample_B : matrix := Matrix 2 [[1; 10]; [100; 1000]]%Z.
Definition sample_C : matrix :=
  Matrix 3 [[1; 2; 3]; [4; 5; 6]; [7; 8; 9]; [1; 0; 1]]%Z.

Definition sample_weights : list Z := [2; 3]%Z.

(** A mask of shape [(3, 1)], broadcast along the second mode. *)
Definition sample_mask : tensor := Tensor [3; 1] [1; 0; 2]%Z.

(* ================================================================== *)
(** ** Lists *)

Section ListFacts.

Variables A B C : Type.

Lemma map2_length (f : A -> B -> C) (l : list A) (l' : list B) :
  length (map2 f l l') = Nat.min (length l) (length l').
Proof.
  revert l'; induction l as [|a l IH]; intros [|b l']; simpl; auto.
Qed.

Lemma flat_map_flat_map (f : A -> list B) (g : B -> list C) (l : list A) :
  flat_map g (flat_map f l) = flat_map (fun a => flat_map g (f a)) l.
Proof.
  induction l as [|a l IH]; simpl; [reflexivity|].
  now rewrite flat_map_app, IH.
Qed.

Lemma flat_map_map (f : A -> B) (g : B -> list C) (l : list A) :
  flat_map g (map f l) = flat_map (fun a => g (f a)) l.
Proof.
  induction l as [|a l IH]; simpl; [reflexivity | now rewrite IH].
Qed.

Lemma map_flat_map (f : A -> list B) (g : B -> C) (l : list A) :
  map g (flat_map f l) = flat_map (fun a => map g (f a)) l.
Proof.
  induction l as [|a l IH]; simpl; [reflexivity|].
  now rewrite map_app, IH.
Qed.

Lemma flat_map_length_const (f : A -> list B) (n : nat) (l : list A) :
  (forall a, In a l -> length (f a) = n) ->
  length (flat_map f l) = (length l * n)%nat.
Proof.
  induction l as [|a l IH]; simpl; intros H; [reflexivity|].
  rewrite length_app, IH, H; auto.
Qed.

Lemma Forall_flat_map (P : B -> Prop) (f : A -> list B) (l : list A) :
  (forall a, In a l -> Forall P (f a)) -> Forall P (flat_map f l).
Proof.
  induction l as [|a l IH]; simpl; intros H; [constructor|].
  apply Forall_app; split; auto.
Qed.

End ListFacts.

Lemma map_nth_seq (A : Type) (d : A) (l : list A) :
map (fun k => nth k l d) (seq 0 (length l)) = l.
Proof.
apply nth_ext with (d := d) (d' := d).
- now rewrite length_map, length_seq.
- intros n Hn. rewrite length_map, length_seq in Hn.
  rewrite nth_indep with (d' := nth 0 l d) by now rewrite length_map, length_seq.
  rewrite map_nth with (f := fun k => nth k l d) (d := 0%nat).
  now rewrite seq_nth.
Qed.

Lemma nth_map_in (A B : Type) (f : A -> B) (l : list A) (i : nat) (d : A)
  (d' : B) :
  (i < length l)%nat -> nth i (map f l) d' = f (nth i l d).
Proof.
  intros Hi. rewrite nth_indep with (d' := f d) by now rewrite length_map.
  apply map_nth.
Qed.

Lemma concat_length_const (A : Type) (n : nat) (ls : list (list A)) :
Forall (fun l => length l = n) ls ->
length (concat ls) = (length ls * n)%nat.
Proof.
induction 1 as [|l ls Hl _ IH]; simpl; [reflexivity|].
now rewrite length_app, IH, Hl.
Qed.

Lemma nth_concat_const (A : Type) (d : A) (n : nat) (ls : list (list A)) :
Forall (fun l => length l = n) ls ->
forall i k, (k < n)%nat ->
nth (i * n + k) (concat ls) d = nth k (nth i ls []) d.
Proof.
induction 1 as [|l ls Hl _ IH]; intros i k Hk; simpl.
- destruct (i * n + k)%nat; destruct i; destruct k; reflexivity.
- destruct i as [|i]; simpl.
  + now rewrite app_nth1 by lia.
  + rewrite app_nth2 by lia.
    replace (n + i * n + k - length l)%nat with (i * n + k)%nat by lia.
    now apply IH.
Qed.

Section Arith.

Open Scope Z_scope.

Lemma zsum_scale (c : Z) (l : list Z) :
  zsum (map (fun x => x * c) l) = zsum l * c.
Proof.
  induction l as [|x l IH]; simpl; [reflexivity | rewrite IH; lia].
Qed.

Lemma map2_mul_assoc (a b c : list Z) :
  map2 Z.mul (map2 Z.mul a b) c = map2 Z.mul a (map2 Z.mul b c).
Proof.
  revert b c; induction a as [|x a IH]; intros [|y b] [|z c]; simpl; auto.
  now rewrite IH, Z.mul_assoc.
Qed.

Lemma map2_mul_ones (a : list Z) :
  map2 Z.mul a (repeat 1 (length a)) = a.
Proof.
  induction a as [|x a IH]; simpl; [reflexivity|].
  now rewrite IH, Z.mul_1_r.
Qed.

End Arith.

(* ================================================================== *)
(** ** Row-major layout, folding and unfolding *)

Lemma map_add_seq (a n : nat) :
  map (fun k => (a + k)%nat) (seq 0 n) = seq a n.
Proof.
  revert a; induction n as [|n IH]; intros a; simpl; [reflexivity|].
  rewrite Nat.add_0_r. f_equal.
  rewrite <- seq_shift, map_map, <- (IH (S a)).
  apply map_ext; intros k; lia.
Qed.

Lemma seq_blocks (P a s : nat) :
  flat_map (fun i => seq (i * P) P) (seq a s) = seq (a * P) (s * P).
Proof.
  revert a; induction s as [|s IH]; intros a; simpl; [reflexivity|].
  rewrite IH, seq_app. do 2 f_equal. lia.
Qed.

Lemma seq_blocks0 (P s : nat) :
  flat_map (fun i => seq (i * P) P) (seq 0 s) = seq 0 (s * P).
Proof. apply (seq_blocks P 0 s). Qed.

Lemma ravel_indices (shape : list nat) :
  map (ravel shape) (indices shape) = seq 0 (size shape).
Proof.
  induction shape as [|s ss IH]; simpl; [reflexivity|].
  rewrite map_flat_map.
  rewrite <- seq_blocks0.
  apply flat_map_ext; intros i.
  rewrite map_map; simpl.
  rewrite <- map_add_seq, <- IH, map_map.
  reflexivity.
Qed.

Lemma indices_length (shape : list nat) :
  length (indices shape) = size shape.
Proof.
  rewrite <- (length_map (ravel shape)), ravel_indices. apply length_seq.
Qed.

Lemma indices_cons (s : nat) (ss : list nat) (idx : list nat) :
  In idx (indices (s :: ss)) -> exists i idx', idx = i :: idx'.
Proof.
  simpl; rewrite in_flat_map; intros (i & _ & H).
  apply in_map_iff in H; destruct H as (idx' & <- & _); eauto.
Qed.

(** Reading every position of the layout in order gives the entries back. *)
Lemma ravel_enumerates (shape : list nat) (v : list Z) :
  length v = size shape ->
  map (fun idx => nth (ravel shape idx) v 0%Z) (indices shape) = v.
Proof.
  intros Hlen.
  rewrite <- (map_map (ravel shape) (fun k => nth k v 0%Z)).
  rewrite ravel_indices, <- Hlen. apply map_nth_seq.
Qed.

(** Folding at mode 0 is a plain reshape. *)
Lemma fold_mode0 (v : list Z) (shape : list nat) :
  shape <> [] -> length v = size shape ->
  fold v 0 shape = Ok (Tensor shape v).
Proof.
  intros Hne Hlen. destruct shape as [|s ss]; [congruence|].
  unfold fold; cbn [nth_error remove_nth].
  rewrite Hlen, Nat.eqb_refl. do 2 f_equal.
  etransitivity; [|exact (ravel_enumerates (s :: ss) v Hlen)].
  apply map_ext_in; intros idx Hin.
  destruct (indices_cons _ _ _ Hin) as (i & idx' & ->). reflexivity.
Qed.

(** Row [i] of the mode-0 unfolding is the [i]-th block of the entries. *)
Lemma unfold_mode0 (s : nat) (ss : list nat) (v : list Z) :
  unfold (Tensor (s :: ss) v) 0
  = Ok (Matrix (size ss)
          (map (fun i => map (fun k => nth (i * size ss + k) v 0%Z)
                             (seq 0 (size ss)))
               (seq 0 s))).
Proof.
  unfold unfold; cbn [tshape nth_error remove_nth]. do 2 f_equal.
  apply map_ext; intros i.
  rewrite <- (ravel_indices ss), map_map. reflexivity.
Qed.

Lemma unfold_mode0_concat (s : nat) (ss : list nat) (rs : list (list Z)) :
  length rs = s -> Forall (fun r => length r = size ss) rs ->
  unfold (Tensor (s :: ss) (concat rs)) 0 = Ok (Matrix (size ss) rs).
Proof.
  intros Hs Hrs. rewrite unfold_mode0. do 2 f_equal.
  etransitivity; [|exact (map_nth_seq [] rs)]. rewrite Hs.
  apply map_ext_in; intros i Hi. apply in_seq in Hi.
  assert (Hl : length (nth i rs []) = size ss).
  { rewrite Forall_forall in Hrs. apply Hrs, nth_In. lia. }
  etransitivity; [|exact (map_nth_seq 0%Z (nth i rs []))]. rewrite Hl.
  apply map_ext_in; intros k Hk. apply in_seq in Hk.
  apply nth_concat_const; [assumption | lia].
Qed.

Lemma unfold_mode0_flat (s : nat) (ss : list nat) (v : list Z) :
  length v = size (s :: ss) ->
  tensor_to_vec (Tensor (s :: ss) v) = Ok v.
Proof.
  intros Hlen. unfold tensor_to_vec. rewrite unfold_mode0.
  cbn [bind mrows]. f_equal.
  rewrite <- flat_map_concat_map.
  transitivity (map (fun k => nth k v 0%Z)
                  (flat_map (fun i => seq (i * size ss) (size ss)) (seq 0 s))).
  - rewrite map_flat_map. apply flat_map_ext; intros i.
    rewrite <- (map_add_seq (i * size ss)), map_map. reflexivity.
  - rewrite seq_blocks0. simpl in Hlen. rewrite <- Hlen.
    apply map_nth_seq.
Qed.

(** Folding inverts unfolding at every mode of a sample tensor. *)
Example fold_unfold_sample :
  let T := Tensor [2; 3; 2] [1; 2; 3; 4; 5; 6; 7; 8; 9; 10; 11; 12]%Z in
  forallb (fun mode =>
             match M <- unfold T mode ;; fold (concat (mrows M)) mode (tshape T)
             with
             | Ok T' => forallb2 Z.eqb (tdata T') (tdata T)
             | Err _ => false
             end) [0; 1; 2]%nat = true
  /\ unfold T 1
     = Ok (Matrix 4 [[1; 2; 7; 8]; [3; 4; 9; 10]; [5; 6; 11; 12]]%Z).
Proof. split; reflexivity. Qed.

(* ================================================================== *)
(** ** Broadcasting succeeds on broadcastable shapes *)

Lemma chunks_length (n k : nat) (d : list Z) : length (chunks n k d) = k.
Proof.
  revert d; induction k as [|k IH]; intros d; simpl; [reflexivity|].
  now rewrite IH.
Qed.

Lemma chunks_Forall (n k : nat) (d : list Z) :
  length d = (k * n)%nat -> Forall (fun c => length c = n) (chunks n k d).
Proof.
  revert d; induction k as [|k IH]; intros d Hd; simpl; constructor.
  - rewrite length_firstn. lia.
  - apply IH. rewrite length_skipn. lia.
Qed.

Lemma mapM_ok (A B : Type) (f : A -> result B) (P : B -> Prop) (l : list A) :
  (forall a, In a l -> exists b, f a = Ok b /\ P b) ->
  exists bs, mapM f l = Ok bs /\ length bs = length l /\ Forall P bs.
Proof.
  induction l as [|a l IH]; intros H; simpl.
  - exists []. repeat split; constructor.
  - destruct (H a (or_introl eq_refl)) as (b & Hb & Pb).
    destruct IH as (bs & Hbs & Hlen & HP); [intros; apply H; now right|].
    exists (b :: bs). rewrite Hb; simpl. rewrite Hbs; simpl.
    repeat split; [now rewrite Hlen | now constructor].
Qed.

Lemma concat_repeat_length (A : Type) (r : list A) (t : nat) :
  length (concat (repeat r t)) = (t * length r)%nat.
Proof.
  induction t as [|t IH]; simpl; [reflexivity|].
  now rewrite length_app, IH.
Qed.

Lemma bcast_ok (ms : list nat) :
  forall (ts : list nat) (d : list Z),
    broadcastable_dims ms ts = true -> length d = size ms ->
    exists r, bcast ms ts d = Ok r /\ length r = size ts.
Proof.
  induction ms as [|m ms IH]; intros [|t ts] d Hb Hd; simpl in Hb;
    try discriminate.
  - exists d. split; [reflexivity | assumption].
  - apply andb_prop in Hb. destruct Hb as [Hmt Hb].
    simpl in Hd. simpl bcast. destruct (m =? t) eqn:Emt.
    + apply Nat.eqb_eq in Emt; subst t.
      destruct (@mapM_ok _ _ (bcast ms ts) (fun r => length r = size ts)
                  (chunks (size ms) m d)) as (bs & Hbs & Hlen & HP).
      { intros c Hc. apply IH; [assumption|].
        pose proof (chunks_Forall (size ms) m d Hd) as HF.
        rewrite Forall_forall in HF. now apply HF. }
      exists (concat bs). rewrite Hbs; simpl. split; [reflexivity|].
      rewrite (concat_length_const HP), Hlen, chunks_length. reflexivity.
    + simpl in Hmt. rewrite Hmt.
      apply Nat.eqb_eq in Hmt; subst m.
      destruct (IH ts d Hb) as (r & Hr & Hlen); [lia|].
      exists (concat (repeat r t)). rewrite Hr; simpl.
      split; [reflexivity|]. now rewrite concat_repeat_length, Hlen.
Qed.

Lemma size_pad_shape (ms ts : list nat) : size (pad_shape ms ts) = size ms.
Proof.
  unfold pad_shape. induction (length ts - length ms)%nat as [|k IH]; simpl;
    [reflexivity | lia].
Qed.

Lemma broadcast_to_ok (m : tensor) (shape : list nat) :
  wf_tensor m -> broadcastable (tshape m) shape = true ->
  exists mflat, broadcast_to m shape = Ok mflat /\ length mflat = size shape.
Proof.
  unfold broadcastable, broadcast_to, wf_tensor; intros Hwf Hb.
  apply andb_prop in Hb; destruct Hb as [Hlen Hb]. rewrite Hlen.
  apply bcast_ok; [assumption | now rewrite size_pad_shape].
Qed.

(* ================================================================== *)
(** ** Khatri-Rao product *)

Lemma kr2_assoc (A B C : matrix) : kr2 (kr2 A B) C = kr2 A (kr2 B C).
Proof.
  unfold kr2; cbn [ncols mrows]. f_equal.
  rewrite flat_map_flat_map. apply flat_map_ext; intros a.
  rewrite flat_map_map, map_flat_map. apply flat_map_ext; intros b.
  rewrite map_map. apply map_ext; intros c. apply map2_mul_assoc.
Qed.

Lemma fold_left_kr2 (l : list matrix) (A B : matrix) :
  fold_left kr2 l (kr2 A B) = kr2 A (fold_left kr2 l B).
Proof.
  revert B; induction l as [|C l IH]; intros B; simpl; [reflexivity|].
  now rewrite kr2_assoc, IH.
Qed.

Lemma kr2_ones_rows (R : nat) (rows : list (list Z)) :
  Forall (fun a => length a = R) rows ->
  flat_map (fun a => [map2 Z.mul a (repeat 1%Z R)]) rows = rows.
Proof.
  induction 1 as [|a rows Ha _ IH]; [reflexivity|].
  cbn [flat_map app]. rewrite IH. f_equal.
  rewrite <- Ha. apply map2_mul_ones.
Qed.

Lemma kr2_ones (R : nat) (U : matrix) : factor R U -> kr2 U (ones R) = U.
Proof.
  intros [Hwf HR]. destruct U as [n rows]; unfold kr2, wf_matrix in *.
  cbn [ncols mrows ones] in *. subst n. f_equal.
  exact (kr2_ones_rows Hwf).
Qed.

(** The product of a list is the first factor times the product of the
    others. *)
Lemma kr_cons (R : nat) (U : matrix) (rest : list matrix) :
  factor R U -> kr R (U :: rest) = kr2 U (kr R rest).
Proof.
  intros HU. destruct rest as [|V rest]; simpl.
  - symmetry; now apply kr2_ones.
  - apply fold_left_kr2.
Qed.

Lemma nrows_kr2 (A B : matrix) : nrows (kr2 A B) = (nrows A * nrows B)%nat.
Proof.
  unfold nrows, kr2; cbn [mrows].
  apply flat_map_length_const; intros a _. apply length_map.
Qed.

Lemma factor_kr2 (R : nat) (A B : matrix) :
  factor R A -> factor R B -> factor R (kr2 A B).
Proof.
  intros [HA RA] [HB RB]; split; [|exact RA].
  unfold wf_matrix, kr2 in *; cbn [ncols mrows].
  apply Forall_flat_map; intros a Ha.
  rewrite Forall_forall in HA, HB |- *. intros r Hr.
  apply in_map_iff in Hr; destruct Hr as (b & <- & Hb).
  rewrite map2_length, (HA a Ha), (HB b Hb), RA, RB. apply Nat.min_id.
Qed.

Lemma factor_ones (R : nat) : factor R (ones R).
Proof.
  split; [|reflexivity]. repeat constructor. apply repeat_length.
Qed.

Lemma kr_shape (R : nat) (ms : list matrix) :
  Forall (factor R) ms ->
  factor R (kr R ms) /\ nrows (kr R ms) = size (map nrows ms).
Proof.
  induction 1 as [|U ms HU _ [IHf IHn]].
  - split; [apply factor_ones | reflexivity].
  - rewrite (kr_cons _ HU). split; [now apply factor_kr2|].
    rewrite nrows_kr2, IHn. reflexivity.
Qed.

Lemma ravel_bound (idx : list nat) (ms : list matrix) :
  in_bounds idx ms -> (ravel (map nrows ms) idx < size (map nrows ms))%nat.
Proof.
  induction 1 as [|i U idx ms Hi _ IH]; simpl; [lia|]. nia.
Qed.

(** Row [(i_1, ..., i_N)] of the Khatri-Rao product is the entrywise
    product of the rows [U_k[i_k]]. *)
Lemma kr_row (R : nat) (ms : list matrix) (idx : list nat) :
  Forall (factor R) ms -> in_bounds idx ms ->
  nth (ravel (map nrows ms) idx) (mrows (kr R ms)) []
  = fold_right (map2 Z.mul) (repeat 1%Z R) (cp_rows ms idx).
Proof.
  intros HF Hb; revert HF.
  induction Hb as [|i U idx ms Hi Hb IH]; intros HF; [reflexivity|].
  inversion HF as [|? ? HU Hms]; subst.
  destruct (kr_shape Hms) as [_ HnK].
  pose proof (ravel_bound Hb) as Hk.
  rewrite (kr_cons _ HU). cbn [map ravel cp_rows map2 fold_right].
  fold (cp_rows ms idx). rewrite <- (IH Hms), <- HnK in *.
  unfold kr2; cbn [mrows]. rewrite flat_map_concat_map.
  rewrite (@nth_concat_const _ [] (nrows (kr R ms))).
  - rewrite (nth_map_in (fun a => map (fun b => map2 Z.mul a b)
                                     (mrows (kr R ms))) _ [] [] Hi).
    now rewrite (nth_map_in (fun b => map2 Z.mul (nth i (mrows U) []) b)
                   _ [] [] Hk).
  - apply Forall_forall; intros l Hl.
    apply in_map_iff in Hl; destruct Hl as (a & <- & _). apply length_map.
  - exact Hk.
Qed.

(** Summing the rows of [kr2 U K] gives, block by block, the rows of the
    matrix product of [U] with the transpose of [K]. *)
Lemma sum_axis1_kr2 (U K : matrix) :
  sum_axis1 (kr2 U K)
  = concat (map (fun a => map (fun b => zsum (map2 Z.mul a b)) (mrows K))
                (mrows U)).
Proof.
  unfold sum_axis1, kr2; cbn [mrows].
  rewrite map_flat_map, <- flat_map_concat_map.
  apply flat_map_ext; intros a. apply map_map.
Qed.

(* ------------------------------------------------------------------ *)
(** *** Transposition *)

Lemma columns_length (M : matrix) : length (columns M) = ncols M.
Proof. unfold columns. now rewrite length_map, length_seq. Qed.

Lemma columns_transpose (K : matrix) :
  wf_matrix K -> columns (transpose K) = mrows K.
Proof.
  intros Hwf. unfold columns at 1, transpose; cbn [ncols mrows].
  etransitivity; [|exact (map_nth_seq [] (mrows K))].
  apply map_ext_in; intros j Hj. apply in_seq in Hj.
  assert (Hl : length (nth j (mrows K) []) = ncols K).
  { unfold wf_matrix in Hwf. rewrite Forall_forall in Hwf.
    apply Hwf, nth_In. unfold nrows in Hj. lia. }
  unfold columns. rewrite map_map.
  etransitivity; [|exact (map_nth_seq 0%Z (nth j (mrows K) []))].
  rewrite Hl. apply map_ext; intros c.
  apply (nth_map_in (fun row => nth c row 0%Z)). lia.
Qed.

Lemma dot_transpose (U K : matrix) :
  wf_matrix K -> ncols U = ncols K ->
  dot U (transpose K)
  = Ok (Matrix (nrows K)
          (map (fun a => map (fun b => zsum (map2 Z.mul a b)) (mrows K))
               (mrows U))).
Proof.
  intros Hwf HR. unfold dot.
  replace (nrows (transpose K)) with (ncols K)
    by (unfold nrows, transpose; cbn [mrows]; now rewrite columns_length).
  rewrite HR, Nat.eqb_refl, (columns_transpose Hwf). reflexivity.
Qed.

(* ------------------------------------------------------------------ *)
(** *** Weights and masks *)

Lemma map2_nth (A B C : Type) (f : A -> B -> C) (da : A) (db : B) (n : nat) :
  forall (a : list A) (b : list B),
    length a = n -> length b = n ->
    map2 f a b = map (fun r => f (nth r a da) (nth r b db)) (seq 0 n).
Proof.
  induction n as [|n IH]; intros [|x a] [|y b] Ha Hb; simpl in *;
    try discriminate; [reflexivity|].
  f_equal. rewrite <- seq_shift, map_map. apply IH; lia.
Qed.

Lemma mat_times_vec_scale (R : nat) (U : matrix) (w : list Z) :
  factor R U -> length w = R -> mat_times_vec U w = Ok (scale_columns w U).
Proof.
  intros [Hwf HR] Hw. unfold mat_times_vec, scale_columns.
  rewrite HR, Hw, Nat.eqb_refl. do 2 f_equal.
  apply map_ext_in; intros row Hrow.
  unfold wf_matrix in Hwf; rewrite Forall_forall in Hwf.
  apply map2_nth; [rewrite (Hwf row Hrow) |]; congruence.
Qed.

Lemma factor_scale_columns (R : nat) (U : matrix) (w : list Z) :
  factor R U -> factor R (scale_columns w U).
Proof.
  intros [Hwf HR]; split; [|exact HR].
  unfold wf_matrix, scale_columns; cbn [ncols mrows].
  apply Forall_forall; intros r Hr.
  apply in_map_iff in Hr; destruct Hr as (row & <- & _).
  now rewrite length_map, length_seq.
Qed.

Lemma nrows_scale_columns (U : matrix) (w : list Z) :
  nrows (scale_columns w U) = nrows U.
Proof. unfold nrows, scale_columns; cbn [mrows]. apply length_map. Qed.

Lemma factor_list_scale_first (R : nat) (factors : list matrix) (w : list Z) :
  factor_list R factors -> factor_list R (scale_first w factors).
Proof.
  intros [Hne HF]. destruct factors as [|U0 rest]; [congruence|].
  split; [discriminate|]. inversion HF; subst.
  constructor; [now apply factor_scale_columns | assumption].
Qed.

Lemma nrows_scale_first (factors : list matrix) (w : list Z) :
  map nrows (scale_first w factors) = map nrows factors.
Proof.
  destruct factors as [|U0 rest]; simpl; [reflexivity|].
  now rewrite nrows_scale_columns.
Qed.

Lemma nrows_apply_mask (K : matrix) (mflat : list Z) :
  length mflat = nrows K -> nrows (apply_mask K mflat) = nrows K.
Proof.
  intros H. unfold nrows, apply_mask in *; cbn [mrows].
  rewrite map2_length. lia.
Qed.

Lemma factor_apply_mask (R : nat) (K : matrix) (mflat : list Z) :
  factor R K -> factor R (apply_mask K mflat).
Proof.
  intros [Hwf HR]; split; [|exact HR].
  unfold wf_matrix, apply_mask in *; cbn [ncols mrows].
  revert mflat; induction Hwf as [|row rows Hrow _ IH]; intros [|c mflat];
    simpl; constructor; [now rewrite length_map | apply IH].
Qed.

(** Masking the rows before the reduction scales each sum. *)
Lemma sum_axis1_apply_mask (K : matrix) (mflat : list Z) :
  sum_axis1 (apply_mask K mflat) = map2 Z.mul (sum_axis1 K) mflat.
Proof.
  unfold sum_axis1, apply_mask; cbn [mrows].
  generalize (mrows K) as rows. intros rows; revert mflat.
  induction rows as [|row rows IH]; intros [|c mflat]; simpl; try reflexivity.
  now rewrite IH, zsum_scale.
Qed.

(* ------------------------------------------------------------------ *)
(** *** [khatri_rao] on a factor list *)

Lemma rank_check (R : nat) (factors : list matrix) :
  Forall (factor R) factors ->
  forallb (fun U => ncols U =? R) factors = true.
Proof.
  induction 1 as [|U l [_ HU] _ IH]; simpl; [reflexivity|].
  now rewrite HU, Nat.eqb_refl.
Qed.

Lemma khatri_rao_all (R : nat) (factors : list matrix) :
  factor_list R factors -> khatri_rao factors None None = Ok (kr R factors).
Proof.
  intros [Hne HF]. destruct factors as [|U0 rest]; [congruence|].
  unfold khatri_rao. inversion HF as [|? ? [_ HR] _]; subst.
  now rewrite (rank_check HF).
Qed.

Lemma khatri_rao_masked (R : nat) (factors : list matrix) (m : tensor) :
  factor_list R factors ->
  wf_tensor m -> broadcastable (tshape m) (map nrows factors) = true ->
  exists mflat,
    broadcast_to m (map nrows factors) = Ok mflat
    /\ length mflat = size (map nrows factors)
    /\ khatri_rao factors None (Some m) = Ok (apply_mask (kr R factors) mflat).
Proof.
  intros [Hne HF] Hwf Hb.
  destruct (broadcast_to_ok _ Hwf Hb) as (mflat & Hm & Hl).
  exists mflat. repeat split; try assumption.
  destruct factors as [|U0 rest]; [congruence|].
  unfold khatri_rao. inversion HF as [|? ? [_ HR] _]; subst.
  rewrite (rank_check HF). cbn [skip_matrices]. now rewrite Hm.
Qed.

(** With a well-shaped mask or none, [khatri_rao] returns a matrix of shape
    [(prod s_i, R)]. *)
Lemma khatri_rao_shape (R : nat) (factors : list matrix) (mask : option tensor) :
  factor_list R factors -> mask_for (map nrows factors) mask ->
  exists K,
    khatri_rao factors None mask = Ok K
    /\ factor R K /\ nrows K = size (map nrows factors).
Proof.
  intros HF Hm. destruct (kr_shape (proj2 HF)) as [Hk Hn].
  destruct mask as [m|].
  - destruct Hm as [Hwf Hb].
    destruct (khatri_rao_masked HF Hwf Hb) as (mflat & _ & Hl & ->).
    eexists; split; [reflexivity|]. split; [now apply factor_apply_mask|].
    rewrite nrows_apply_mask; congruence.
  - rewrite (khatri_rao_all HF). eauto.
Qed.

(* ================================================================== *)
(** ** [kruskal_to_tensor] *)

Lemma size_nrows_nonempty (R : nat) (factors : list matrix) :
  factor_list R factors -> map nrows factors <> [].
Proof. intros [Hne _]. destruct factors; [congruence | discriminate]. Qed.

(** What the call computes on a factor list: the list it leaves behind and
    the tensor it returns. *)
Lemma kruskal_to_tensor_eval (R : nat) (factors : list matrix)
  (weights : option (list Z)) (mask : option tensor) :
  factor_list R factors -> weights_for R weights ->
  mask_for (map nrows factors) mask ->
  exists K,
    khatri_rao (weighted weights factors) None mask = Ok K
    /\ factor R K /\ nrows K = size (map nrows factors)
    /\ kruskal_to_tensor factors weights mask
       = (weighted weights factors,
          Ok (Tensor (map nrows factors) (sum_axis1 K))).
Proof.
  intros HF Hw Hm.
  assert (HF' : factor_list R (weighted weights factors)).
  { destruct weights; [now apply factor_list_scale_first | exact HF]. }
  assert (Hs : map nrows (weighted weights factors) = map nrows factors).
  { destruct weights; [apply nrows_scale_first | reflexivity]. }
  destruct (@khatri_rao_shape R (weighted weights factors) mask HF')
    as (K & HK & HfK & HnK); [now rewrite Hs|].
  rewrite Hs in HnK. exists K. do 3 (split; [assumption|]).
  assert (Hfold : fold (sum_axis1 K) 0 (map nrows factors)
                  = Ok (Tensor (map nrows factors) (sum_axis1 K))).
  { apply fold_mode0; [exact (size_nrows_nonempty HF)|].
    unfold sum_axis1. now rewrite length_map. }
  unfold kruskal_to_tensor. destruct weights as [w|]; cbn [weighted] in *.
  - destruct factors as [|U0 rest]; [destruct HF; congruence|].
    destruct HF as [_ HF]. inversion HF as [|? ? HU0 _]; subst.
    cbn [weights_for] in Hw. rewrite (@mat_times_vec_scale R U0 w HU0 Hw).
    cbn [scale_first] in HK. rewrite HK. cbn [bind]. now rewrite Hfold.
  - rewrite HK. cbn [bind]. now rewrite Hfold.
Qed.

Lemma kruskal_to_tensor_plain (R : nat) (factors : list matrix) :
  factor_list R factors ->
  kruskal_to_tensor factors None None
  = (factors, Ok (Tensor (map nrows factors) (sum_axis1 (kr R factors)))).
Proof.
  intros HF.
  destruct (@kruskal_to_tensor_eval R factors None None HF I I)
    as (K & HK & _ & _ & ->).
  cbn [weighted] in HK. rewrite (khatri_rao_all HF) in HK.
  now inversion HK.
Qed.

(** X3: The tensor returned on a factor list has the entries of the Kruskal
    form: at every multi-index within its shape, the sum over the rank of
    the products of the selected factor entries. *)
Lemma kruskal_to_tensor_entries (R : nat) (factors : list matrix)
  (idx : list nat) :
  factor_list R factors -> in_bounds idx factors ->
  exists T,
    snd (kruskal_to_tensor factors None None) = Ok T
    /\ tensor_get T idx = cp_entry R factors idx.
Proof.
  intros HF Hb. rewrite (kruskal_to_tensor_plain HF).
  eexists; split; [reflexivity|].
  unfold tensor_get, cp_entry, sum_axis1; cbn [tshape tdata].
  destruct (kr_shape (proj2 HF)) as [_ HnK].
  rewrite <- (kr_row (proj2 HF) Hb).
  apply nth_map_in. unfold nrows in HnK. rewrite HnK.
  now apply ravel_bound.
Qed.

Example kruskal_to_tensor_entry_sample :
  cp_entry 2 [sample_A; sample_B] [2; 1]%nat = 6500%Z
  /\ exists T,
       snd (kruskal_to_tensor [sample_A; sample_B] None None) = Ok T
       /\ tensor_get T [2; 1]%nat = 6500%Z.
Proof.
  split; [reflexivity|]. eexists; split; reflexivity.
Qed.

(** Without weights the caller's list is left as it was. *)
Lemma kruskal_to_tensor_frame (factors : list matrix) (mask : option tensor) :
  fst (kruskal_to_tensor factors None mask) = factors.
Proof. reflexivity. Qed.

(** The specification's concrete example: two 2x2 factors of rank 2 give
    the 2x2 tensor [[1,1],[1,1]]. *)
Example kruskal_to_tensor_sample :
  snd (kruskal_to_tensor [sample_U; sample_V] None None)
  = Ok (Tensor [2; 2] [1; 1; 1; 1]%Z).
Proof. reflexivity. Qed.

Lemma factor_list_sample_AB : factor_list 2 [sample_A; sample_B].
Proof.
  split; [discriminate|]. repeat constructor.
Defined.

(** C1: on a factor list of common rank [R], with optional weights of
    length [R] and an optional broadcastable mask, [kruskal_to_tensor]
    returns the tensor obtained by (1) the Khatri-Rao product [K] of the
    (weighted) factors, the mask being handed to that computation and
    multiplying its rows, (2) the sum of [K] along axis 1, where [K] has
    shape [(prod s_i, R)], and (3) the fold at mode 0 of that vector of
    length [prod s_i] into the shape [(s_1, ..., s_N)]. *)
Theorem kruskal_to_tensor_algorithm (R : nat) (factors : list matrix)
  (weights : option (list Z)) (mask : option tensor) :
  factor_list R factors -> weights_for R weights ->
  mask_for (map nrows factors) mask ->
  exists K T,
    khatri_rao (weighted weights factors) None mask = Ok K
    /\ (mask = None -> K = kr R (weighted weights factors))
    /\ (forall m, mask = Some m ->
        exists mflat,
          broadcast_to m (map nrows factors) = Ok mflat
          /\ K = apply_mask (kr R (weighted weights factors)) mflat)
    /\ wf_matrix K /\ ncols K = R /\ nrows K = size (map nrows factors)
    /\ length (sum_axis1 K) = size (map nrows factors)
    /\ fold (sum_axis1 K) 0 (map nrows factors) = Ok T
    /\ snd (kruskal_to_tensor factors weights mask) = Ok T
    /\ tshape T = map nrows factors
    /\ tdata T = sum_axis1 K.
Proof.
  intros HF Hw Hm.
  destruct (@kruskal_to_tensor_eval R factors weights mask HF Hw Hm)
    as (K & HK & [HwfK HRK] & HnK & Heval).
  assert (HF' : factor_list R (weighted weights factors)).
  { destruct weights; [now apply factor_list_scale_first | exact HF]. }
  assert (Hs : map nrows (weighted weights factors) = map nrows factors).
  { destruct weights; [apply nrows_scale_first | reflexivity]. }
  assert (Hlen : length (sum_axis1 K) = size (map nrows factors)).
  { unfold sum_axis1. now rewrite length_map. }
  exists K, (Tensor (map nrows factors) (sum_axis1 K)).
  split; [exact HK|]. split; [|split].
  - intros ->. rewrite (khatri_rao_all HF') in HK. now inversion HK.
  - intros m ->. destruct Hm as [Hwf Hb]. rewrite <- Hs in Hb.
    destruct (khatri_rao_masked HF' Hwf Hb) as (mflat & Hbm & _ & HK').
    exists mflat. rewrite Hs in Hbm. split; [exact Hbm|]. congruence.
  - repeat (split; [assumption|]).
    split; [apply fold_mode0; [exact (size_nrows_nonempty HF) | exact Hlen]|].
    rewrite Heval. repeat split.
Qed.

Lemma kruskal_to_tensor_algorithm_witness :
  exists K T,
    khatri_rao (weighted (Some sample_weights) [sample_A; sample_B]) None
      (Some sample_mask) = Ok K
    /\ nrows K = 6%nat
    /\ snd (kruskal_to_tensor [sample_A; sample_B] (Some sample_weights)
              (Some sample_mask)) = Ok T
    /\ T = Tensor [3; 2] [62; 6200; 0; 0; 380; 38000]%Z.
Proof.
  destruct (@kruskal_to_tensor_algorithm 2 [sample_A; sample_B]
              (Some sample_weights) (Some sample_mask))
    as (K & T & HK & _ & _ & _ & _ & HnK & _ & _ & HT & _ & _).
  - exact factor_list_sample_AB.
  - reflexivity.
  - split; reflexivity.
  - exists K, T. split; [exact HK|]. split; [exact HnK|]. split; [exact HT|].
    vm_compute in HT. now inversion HT.
Defined.

(* ================================================================== *)
(** ** [kruskal_to_unfolded] *)

Lemma skip_from_past (i k : Z) (ms : list matrix) :
  (k < i)%Z -> skip_from i k ms = ms.
Proof.
  revert i; induction ms as [|U ms IH]; intros i Hi; simpl; [reflexivity|].
  destruct (Z.eqb_spec i k); [lia|]. rewrite IH by lia. reflexivity.
Qed.

Lemma py_getitem_head (A : Type) (a : A) (l : list A) :
  py_getitem (a :: l) 0 = Ok a.
Proof.
  unfold py_getitem. cbn [Z.ltb Z.compare length].
  replace ((0 <=? 0)%Z && (0 <? Z.of_nat (S (length l)))%Z) with true;
    [reflexivity|].
  symmetry. apply andb_true_intro; split; [reflexivity|].
  apply Z.ltb_lt. lia.
Qed.

(** Skipping the first factor leaves the Khatri-Rao product of the others. *)
Lemma khatri_rao_skip0 (R : nat) (U0 : matrix) (rest : list matrix) :
  Forall (factor R) (U0 :: rest) ->
  khatri_rao (U0 :: rest) (Some 0%Z) None = Ok (kr R rest).
Proof.
  intros HF. unfold khatri_rao.
  inversion HF as [|? ? [_ HR] _]; subst.
  rewrite (rank_check HF). cbn [skip_matrices skip_from Z.eqb].
  now rewrite skip_from_past by lia.
Qed.

(** C2: on a factor list [U_1 .. U_N] of common rank [R],
    [kruskal_to_unfolded(factors, 0)] is [U_1] times the transpose of the
    Khatri-Rao product [K] of the remaining factors, a matrix of shape
    [(s_1, prod of the other s_i)], and that matrix is the mode-0 unfolding
    of the tensor returned by [kruskal_to_tensor(factors)]: the two paths
    agree. *)
Theorem kruskal_to_unfolded_mode0 (R : nat) (factors : list matrix) :
  factor_list R factors ->
  exists U1 rest K M,
    factors = U1 :: rest
    /\ khatri_rao factors (Some 0%Z) None = Ok K
    /\ K = kr R rest
    /\ dot U1 (transpose K) = Ok M
    /\ kruskal_to_unfolded factors 0 = Ok M
    /\ (T <- snd (kruskal_to_tensor factors None None) ;; unfold T 0) = Ok M
    /\ nrows M = nrows U1
    /\ ncols M = size (map nrows rest).
Proof.
  intros HF. rewrite (kruskal_to_tensor_plain HF).
  destruct HF as [Hne HF]. destruct factors as [|U1 rest]; [congruence|].
  inversion HF as [|? ? HU1 Hrest]; subst.
  destruct (kr_shape Hrest) as [[HwfK HRK] HnK].
  assert (Hdot : dot U1 (transpose (kr R rest))
                 = Ok (Matrix (nrows (kr R rest))
                         (map (fun a =>
                                 map (fun b => zsum (map2 Z.mul a b))
                                     (mrows (kr R rest)))
                              (mrows U1)))).
  { apply dot_transpose; [exact HwfK|]. destruct HU1 as [_ ->]. now rewrite HRK. }
  exists U1, rest, (kr R rest). eexists.
  split; [reflexivity|]. split; [exact (khatri_rao_skip0 HF)|].
  split; [reflexivity|]. split; [exact Hdot|].
  split; [|split; [|split]].
  - unfold kruskal_to_unfolded.
    rewrite py_getitem_head, (khatri_rao_skip0 HF). cbn [bind]. exact Hdot.
  - cbn [snd bind map]. rewrite (kr_cons _ HU1), sum_axis1_kr2, HnK.
    apply unfold_mode0_concat.
    + apply length_map.
    + apply Forall_forall; intros r Hr.
      apply in_map_iff in Hr; destruct Hr as (a & <- & _).
      now rewrite length_map.
  - unfold nrows; cbn [mrows]. apply length_map.
  - cbn [ncols]. exact HnK.
Qed.

Lemma kruskal_to_unfolded_mode0_witness :
  exists M,
    kruskal_to_unfolded [sample_A; sample_B] 0 = Ok M
    /\ (T <- snd (kruskal_to_tensor [sample_A; sample_B] None None) ;;
        unfold T 0) = Ok M
    /\ M = Matrix 2 [[21; 2100]; [43; 4300]; [65; 6500]]%Z.
Proof.
  destruct (@kruskal_to_unfolded_mode0 2 [sample_A; sample_B]
              factor_list_sample_AB)
    as (U1 & rest & K & M & _ & _ & _ & _ & HM & HT & _ & _).
  exists M. split; [exact HM|]. split; [exact HT|].
  vm_compute in HM. now inversion HM.
Defined.

(* ================================================================== *)
(** ** Weights, masks and the caller's list *)

(** C3: the call is not free of side effects.  With weights, the
    assignment [factors[0] = factors[0]*weights] replaces the first entry of
    the caller's list: after [kruskal_to_tensor([A, B], weights=[2, 3])] the
    list holds [A] with its columns scaled by 2 and 3, not [A]. *)
Theorem kruskal_to_tensor_overwrites_first_factor :
  fst (kruskal_to_tensor [sample_A; sample_B] (Some sample_weights) None)
  = [Matrix 2 [[2; 6]; [6; 12]; [10; 18]]%Z; sample_B]
  /\ fst (kruskal_to_tensor [sample_A; sample_B] (Some sample_weights) None)
     <> [sample_A; sample_B].
Proof. split; [reflexivity | discriminate]. Qed.

(** On every factor list the weighted call leaves the scaled list behind. *)
Lemma kruskal_to_tensor_leaves_weighted (R : nat) (factors : list matrix)
  (w : list Z) (mask : option tensor) :
  factor_list R factors -> length w = R ->
  mask_for (map nrows factors) mask ->
  fst (kruskal_to_tensor factors (Some w) mask) = scale_first w factors.
Proof.
  intros HF Hw Hm.
  destruct (@kruskal_to_tensor_eval R factors (Some w) mask HF Hw Hm)
    as (K & _ & _ & _ & ->). reflexivity.
Qed.

(** The weighted call returns what the unweighted call returns on the list
    whose first factor is scaled, whatever the mask. *)
Lemma kruskal_to_tensor_weights (R : nat) (factors : list matrix)
  (w : list Z) (mask : option tensor) :
  factor_list R factors -> length w = R ->
  mask_for (map nrows factors) mask ->
  exists T,
    snd (kruskal_to_tensor factors (Some w) mask) = Ok T
    /\ snd (kruskal_to_tensor (scale_first w factors) None mask) = Ok T.
Proof.
  intros HF Hw Hm.
  destruct (@kruskal_to_tensor_eval R factors (Some w) mask HF Hw Hm)
    as (K & HK & _ & _ & ->).
  pose proof (factor_list_scale_first w HF) as HF'.
  destruct (@kruskal_to_tensor_eval R (scale_first w factors) None mask HF' I)
    as (K' & HK' & _ & _ & ->); [now rewrite nrows_scale_first|].
  cbn [weighted] in HK, HK'. rewrite HK in HK'. inversion HK'; subst K'.
  eexists; split; [reflexivity|]. cbn [snd]. now rewrite nrows_scale_first.
Qed.

(** C4 (weighting law): for a factor list of common rank [R] and a weight
    vector [w] of length [R], [kruskal_to_tensor(factors, weights=w)]
    returns a tensor, and it is the tensor returned without weights on the
    list whose first factor is [factors[0]] scaled column-wise by [w]. *)
Theorem weighting_law (R : nat) (factors : list matrix) (w : list Z) :
  factor_list R factors -> length w = R ->
  exists T,
    snd (kruskal_to_tensor factors (Some w) None) = Ok T
    /\ snd (kruskal_to_tensor (scale_first w factors) None None) = Ok T.
Proof.
  intros HF Hw. exact (@kruskal_to_tensor_weights R factors w None HF Hw I).
Qed.

Lemma weighting_law_witness :
  exists T,
    snd (kruskal_to_tensor [sample_A; sample_B] (Some sample_weights) None)
    = Ok T
    /\ snd (kruskal_to_tensor
              [Matrix 2 [[2; 6]; [6; 12]; [10; 18]]%Z; sample_B] None None)
       = Ok T.
Proof.
  exact (@weighting_law 2 [sample_A; sample_B] sample_weights
           factor_list_sample_AB eq_refl).
Defined.

(** C10 (order of weighting and masking): when both a weight vector of
    length [R] and a broadcastable mask are given, the first factor is
    scaled first and the mask is applied inside the Khatri-Rao product of
    the scaled list; the call returns what
    [kruskal_to_tensor([w*factors[0], factors[1], ...], mask=m)] returns. *)
Theorem weights_then_mask (R : nat) (factors : list matrix) (w : list Z)
  (m : tensor) :
  factor_list R factors -> length w = R ->
  wf_tensor m -> broadcastable (tshape m) (map nrows factors) = true ->
  exists mflat T,
    broadcast_to m (map nrows factors) = Ok mflat
    /\ T = Tensor (map nrows factors)
             (sum_axis1 (apply_mask (kr R (scale_first w factors)) mflat))
    /\ snd (kruskal_to_tensor factors (Some w) (Some m)) = Ok T
    /\ snd (kruskal_to_tensor (scale_first w factors) None (Some m)) = Ok T.
Proof.
  intros HF Hw Hwf Hb.
  destruct (@kruskal_to_tensor_weights R factors w (Some m) HF Hw
              (conj Hwf Hb)) as (T & HT & HT').
  pose proof (factor_list_scale_first w HF) as HF'.
  assert (Hb' : broadcastable (tshape m) (map nrows (scale_first w factors))
                = true) by now rewrite nrows_scale_first.
  destruct (khatri_rao_masked HF' Hwf Hb') as (mflat & Hbm & _ & HK).
  rewrite nrows_scale_first in Hbm.
  exists mflat, T. split; [exact Hbm|]. split; [|split; assumption].
  destruct (@kruskal_to_tensor_eval R factors (Some w) (Some m) HF Hw
              (conj Hwf Hb)) as (K & HK' & _ & _ & Heval).
  cbn [weighted] in HK'. rewrite HK in HK'. inversion HK'; subst K.
  rewrite Heval in HT. cbn [snd] in HT. now inversion HT.
Qed.

Lemma weights_then_mask_witness :
  exists mflat T,
    broadcast_to sample_mask [3; 2] = Ok mflat
    /\ mflat = [1; 1; 0; 0; 2; 2]%Z
    /\ snd (kruskal_to_tensor [sample_A; sample_B] (Some sample_weights)
              (Some sample_mask)) = Ok T
    /\ snd (kruskal_to_tensor
              [Matrix 2 [[2; 6]; [6; 12]; [10; 18]]%Z; sample_B] None
              (Some sample_mask)) = Ok T.
Proof.
  destruct (@weights_then_mask 2 [sample_A; sample_B] sample_weights
              sample_mask factor_list_sample_AB eq_refl eq_refl eq_refl)
    as (mflat & T & Hm & _ & HT & HT').
  exists mflat, T. split; [exact Hm|]. split; [|split; assumption].
  vm_compute in Hm. now inversion Hm.
Defined.

(** C5 (masking law): for a factor list of common rank [R] and a mask [m]
    broadcastable to the output shape, [kruskal_to_tensor(factors, mask=m)]
    returns the elementwise product of [kruskal_to_tensor(factors)] with
    [m]. *)
Theorem masking_law (R : nat) (factors : list matrix) (m : tensor) :
  factor_list R factors ->
  wf_tensor m -> broadcastable (tshape m) (map nrows factors) = true ->
  exists T0 T,
    snd (kruskal_to_tensor factors None None) = Ok T0
    /\ tensor_times T0 m = Ok T
    /\ snd (kruskal_to_tensor factors None (Some m)) = Ok T.
Proof.
  intros HF Hwf Hb.
  destruct (khatri_rao_masked HF Hwf Hb) as (mflat & Hbm & _ & HK).
  destruct (@kruskal_to_tensor_eval R factors None (Some m) HF I
              (conj Hwf Hb)) as (K & HK' & _ & _ & Heval).
  cbn [weighted] in HK'. rewrite HK in HK'. inversion HK'; subst K.
  rewrite Heval, (kruskal_to_tensor_plain HF). cbn [snd].
  do 2 eexists. split; [reflexivity|]. split; [|reflexivity].
  unfold tensor_times; cbn [tshape tdata]. rewrite Hbm; cbn [bind].
  now rewrite sum_axis1_apply_mask.
Qed.

Lemma masking_law_witness :
  exists T0 T,
    snd (kruskal_to_tensor [sample_A; sample_B] None None) = Ok T0
    /\ tensor_times T0 sample_mask = Ok T
    /\ snd (kruskal_to_tensor [sample_A; sample_B] None (Some sample_mask))
       = Ok T
    /\ T0 = Tensor [3; 2] [21; 2100; 43; 4300; 65; 6500]%Z
    /\ T = Tensor [3; 2] [21; 2100; 0; 0; 130; 13000]%Z.
Proof.
  destruct (@masking_law 2 [sample_A; sample_B] sample_mask
              factor_list_sample_AB eq_refl eq_refl)
    as (T0 & T & H0 & Ht & HT).
  exists T0, T. do 3 (split; [assumption|]).
  vm_compute in H0, HT. inversion H0; inversion HT. split; reflexivity.
Defined.

(* ================================================================== *)
(** ** [kruskal_to_vec] *)

(** C6: on a factor list of common rank [R], [kruskal_to_vec(factors)]
    returns the entries of [kruskal_to_tensor(factors)] (no weights, no
    mask) in row-major order, which is the concatenation of the rows of its
    mode-0 unfolding: a vector of length [prod s_i]. *)
Theorem kruskal_to_vec_flattens (R : nat) (factors : list matrix) :
  factor_list R factors ->
  exists T M,
    snd (kruskal_to_tensor factors None None) = Ok T
    /\ kruskal_to_vec factors = (factors, Ok (flatten_row_major T))
    /\ unfold T 0 = Ok M
    /\ flatten_row_major T = concat (mrows M)
    /\ length (flatten_row_major T) = size (map nrows factors).
Proof.
  intros HF.
  destruct (kr_shape (proj2 HF)) as [_ HnK].
  pose proof (kruskal_to_tensor_plain HF) as Hplain.
  remember (sum_axis1 (kr R factors)) as v eqn:Ev.
  assert (Hlen : length v = size (map nrows factors)).
  { subst v. unfold sum_axis1. now rewrite length_map. }
  assert (Hflat : flatten_row_major (Tensor (map nrows factors) v) = v).
  { unfold flatten_row_major, tensor_get; cbn [tshape tdata].
    now apply ravel_enumerates. }
  assert (HM : exists M, unfold (Tensor (map nrows factors) v) 0 = Ok M
                         /\ concat (mrows M) = v).
  { pose proof (size_nrows_nonempty HF) as Hne.
    destruct (map nrows factors) as [|s ss]; [congruence|].
    pose proof (unfold_mode0_flat s ss v Hlen) as Hvec.
    unfold tensor_to_vec in Hvec.
    destruct (unfold _ 0) as [M|e]; cbn [bind] in Hvec; [|discriminate].
    exists M. split; [reflexivity | now inversion Hvec]. }
  destruct HM as (M & HM & Hc).
  exists (Tensor (map nrows factors) v), M.
  unfold kruskal_to_vec. rewrite Hplain.
  cbn [snd bind]. unfold tensor_to_vec. rewrite HM, Hflat. cbn [bind].
  rewrite Hc. repeat split. exact Hlen.
Qed.

Lemma kruskal_to_vec_flattens_witness :
  exists T,
    snd (kruskal_to_tensor [sample_A; sample_B] None None) = Ok T
    /\ kruskal_to_vec [sample_A; sample_B]
       = ([sample_A; sample_B], Ok (flatten_row_major T))
    /\ flatten_row_major T = [21; 2100; 43; 4300; 65; 6500]%Z.
Proof.
  destruct (@kruskal_to_vec_flattens 2 [sample_A; sample_B]
              factor_list_sample_AB) as (T & M & HT & Hv & _ & _ & _).
  exists T. do 2 (split; [assumption|]).
  vm_compute in HT. inversion HT. reflexivity.
Defined.

(* ================================================================== *)
(** ** Edge cases and failures *)

(** C7 (single factor): for every matrix [U] of shape [(s, R)],
    [kruskal_to_tensor([U])] without weights and mask returns the tensor of
    shape [(s,)] whose entry [i] is the sum of row [i] of [U]. *)
Theorem single_factor_row_sums (U : matrix) :
  kruskal_to_tensor [U] None None = ([U], Ok (row_sums U))
  /\ tshape (row_sums U) = [nrows U]
  /\ forall i, tensor_get (row_sums U) [i] = zsum (nth i (mrows U) []).
Proof.
  assert (Hrows : map (fun i => zsum (nth i (mrows U) [])) (seq 0 (nrows U))
                  = map zsum (mrows U)).
  { rewrite <- (map_map (fun i => nth i (mrows U) []) zsum).
    unfold nrows. now rewrite map_nth_seq. }
  split; [|split; [reflexivity|]].
  - unfold kruskal_to_tensor, khatri_rao.
    cbn [forallb map skip_matrices kr fold_left].
    rewrite Nat.eqb_refl. cbn [andb bind].
    rewrite fold_mode0.
    + unfold row_sums, sum_axis1. now rewrite Hrows.
    + discriminate.
    + unfold sum_axis1, nrows. rewrite length_map. simpl. lia.
  - intros i. unfold tensor_get, row_sums; cbn [tshape tdata].
    change (ravel [nrows U] [i]) with (i * 1 + 0)%nat.
    rewrite Hrows. replace (i * 1 + 0)%nat with i by lia.
    destruct (Nat.lt_ge_cases i (length (mrows U))) as [Hi|Hi].
    + now apply nth_map_in.
    + rewrite !nth_overflow; [reflexivity | assumption|].
      now rewrite length_map.
Qed.

(** C8 (rank mismatch): when the column counts of the factors disagree, as
    for shapes [(3, 2)] and [(4, 3)], [khatri_rao] fails with a shape
    mismatch and [kruskal_to_tensor] (no weights) passes that failure on: no
    tensor is returned. *)
Theorem rank_mismatch_fails (factors : list matrix) (mask : option tensor) :
  ranks_disagree factors ->
  khatri_rao factors None mask = Err ShapeMismatch
  /\ snd (kruskal_to_tensor factors None mask) = Err ShapeMismatch.
Proof.
  intros (U & V & HU & HV & Hneq).
  assert (HK : khatri_rao factors None mask = Err ShapeMismatch).
  { destruct factors as [|U0 rest]; [contradiction|].
    unfold khatri_rao.
    destruct (forallb (fun W => ncols W =? ncols U0) (U0 :: rest)) eqn:E;
      [|reflexivity].
    rewrite forallb_forall in E.
    pose proof (E U HU) as EU. pose proof (E V HV) as EV.
    apply Nat.eqb_eq in EU, EV. congruence. }
  split; [exact HK|].
  unfold kruskal_to_tensor; cbn [snd]. now rewrite HK.
Qed.

Lemma rank_mismatch_fails_witness :
  nrows sample_A = 3%nat /\ ncols sample_A = 2%nat
  /\ nrows sample_C = 4%nat /\ ncols sample_C = 3%nat
  /\ khatri_rao [sample_A; sample_C] None None = Err ShapeMismatch
  /\ snd (kruskal_to_tensor [sample_A; sample_C] None None)
     = Err ShapeMismatch.
Proof.
  do 4 (split; [reflexivity|]).
  apply (@rank_mismatch_fails [sample_A; sample_C] None).
  exists sample_A, sample_C.
  split; [now left|]. split; [right; now left|]. discriminate.
Defined.

(** C9 (mode out of range): with [N] factors and [mode >= N],
    [kruskal_to_unfolded(factors, mode)] fails with an index error: the
    lookup [factors[mode]] is out of range. *)
Theorem mode_out_of_range_fails (factors : list matrix) (mode : Z) :
  (Z.of_nat (length factors) <= mode)%Z ->
  py_getitem factors mode = Err IndexError
  /\ kruskal_to_unfolded factors mode = Err IndexError.
Proof.
  intros Hmode.
  assert (Hget : py_getitem factors mode = Err IndexError).
  { unfold py_getitem.
    destruct (Z.ltb_spec mode 0) as [Hneg|_]; [lia|].
    destruct (Z.ltb_spec mode (Z.of_nat (length factors))) as [Hlt|_]; [lia|].
    now rewrite andb_false_r. }
  split; [exact Hget|].
  unfold kruskal_to_unfolded. now rewrite Hget.
Qed.

Lemma mode_out_of_range_fails_witness :
  (Z.of_nat (length [sample_A; sample_B]) <= 5)%Z
  /\ kruskal_to_unfolded [sample_A; sample_B] 5 = Err IndexError.
Proof.
  split; [vm_compute; discriminate|].
  apply (@mode_out_of_range_fails [sample_A; sample_B] 5).
  vm_compute; discriminate.
Defined.

(* ================================================================== *)
(** ** Unfolding along any mode *)

Lemma skip_from_remove (ms : list matrix) :
  forall (i : Z) (k : nat),
    skip_from i (i + Z.of_nat k) ms = remove_nth k ms.
Proof.
  induction ms as [|U ms IH]; intros i k; [now destruct k|].
  cbn [skip_from]. destruct k as [|k].
  - rewrite Z.add_0_r, Z.eqb_refl. cbn [remove_nth].
    apply skip_from_past. lia.
  - destruct (Z.eqb_spec i (i + Z.of_nat (S k))) as [E|_]; [lia|].
    cbn [remove_nth]. f_equal.
    replace (i + Z.of_nat (S k))%Z with (i + 1 + Z.of_nat k)%Z by lia.
    apply IH.
Qed.

Lemma py_getitem_nat (A : Type) (l : list A) (k : nat) (a : A) :
  nth_error l k = Some a -> py_getitem l (Z.of_nat k) = Ok a.
Proof.
  intros H. assert (Hk : (k < length l)%nat).
  { apply nth_error_Some. congruence. }
  unfold py_getitem.
  destruct (Z.ltb_spec (Z.of_nat k) 0) as [Hneg|_]; [lia|].
  destruct (Z.leb_spec 0 (Z.of_nat k)) as [_|Hneg]; [|lia].
  destruct (Z.ltb_spec (Z.of_nat k) (Z.of_nat (length l))) as [_|Hge]; [|lia].
  cbn [andb]. now rewrite Nat2Z.id, H.
Qed.

Lemma map_remove_nth (A B : Type) (f : A -> B) (l : list A) :
  forall k, map f (remove_nth k l) = remove_nth k (map f l).
Proof.
  induction l as [|a l IH]; intros [|k]; simpl; try reflexivity.
  now rewrite IH.
Qed.

Lemma Forall_remove_nth (A : Type) (P : A -> Prop) (l : list A) :
  Forall P l -> forall k, Forall P (remove_nth k l).
Proof.
  induction 1 as [|a l Ha Hl IH]; intros [|k]; simpl; try constructor; auto.
Qed.

Lemma in_bounds_indices (ms : list matrix) :
  forall idx, In idx (indices (map nrows ms)) -> in_bounds idx ms.
Proof.
  induction ms as [|U ms IH]; intros idx Hin; simpl in Hin.
  - destruct Hin as [<-|[]]. constructor.
  - apply in_flat_map in Hin. destruct Hin as (i & Hi & Hin).
    apply in_map_iff in Hin. destruct Hin as (idx' & <- & Hin).
    apply in_seq in Hi. constructor; [lia | now apply IH].
Qed.

Lemma in_bounds_insert (k : nat) :
  forall (ms : list matrix) (Uk : matrix) (i : nat) (idx : list nat),
    nth_error ms k = Some Uk -> (i < nrows Uk)%nat ->
    in_bounds idx (remove_nth k ms) ->
    in_bounds (insert_nth k i idx) ms.
Proof.
  induction k as [|k IH]; intros [|U ms] Uk i idx Hk Hi Hb;
    try discriminate; cbn [nth_error remove_nth] in Hk, Hb.
  - inversion Hk; subst. destruct idx; now constructor.
  - inversion Hb as [|j U' idx' ms' Hj Hb']; subst.
    cbn [insert_nth]. constructor; [exact Hj | now apply (IH ms Uk)].
Qed.

Lemma map2_mul_swap (a b c : list Z) :
  map2 Z.mul a (map2 Z.mul b c) = map2 Z.mul b (map2 Z.mul a c).
Proof.
  revert b c; induction a as [|x a IH]; intros [|y b] [|z c]; simpl; auto.
  rewrite IH. f_equal. lia.
Qed.

(** Moving one factor to the front does not change the product of the
    selected rows. *)
Lemma cp_rows_insert (R : nat) (k : nat) :
  forall (ms : list matrix) (Uk : matrix) (i : nat) (idx : list nat),
    nth_error ms k = Some Uk ->
    in_bounds idx (remove_nth k ms) ->
    fold_right (map2 Z.mul) (repeat 1%Z R) (cp_rows ms (insert_nth k i idx))
    = map2 Z.mul (nth i (mrows Uk) [])
        (fold_right (map2 Z.mul) (repeat 1%Z R)
           (cp_rows (remove_nth k ms) idx)).
Proof.
  induction k as [|k IH]; intros [|U ms] Uk i idx Hk Hb;
    try discriminate; cbn [nth_error remove_nth] in Hk, Hb.
  - inversion Hk; subst. destruct idx; reflexivity.
  - inversion Hb as [|j U' idx' ms' Hj Hb']; subst.
    cbn [insert_nth remove_nth cp_rows map2 fold_right].
    fold (cp_rows ms (insert_nth k i idx')).
    fold (cp_rows (remove_nth k ms) idx').
    rewrite (IH ms Uk i idx' Hk Hb'). apply map2_mul_swap.
Qed.

Lemma map_via_seq (A B : Type) (d : A) (f : A -> B) (l : list A) :
  map f l = map (fun i => f (nth i l d)) (seq 0 (length l)).
Proof.
  rewrite <- (map_map (fun i => nth i l d) f). now rewrite map_nth_seq.
Qed.

(** The entries of the tensor built from the full Khatri-Rao product. *)
Lemma tensor_get_kr (R : nat) (factors : list matrix) (idx : list nat) :
  Forall (factor R) factors -> in_bounds idx factors ->
  tensor_get (Tensor (map nrows factors) (sum_axis1 (kr R factors))) idx
  = cp_entry R factors idx.
Proof.
  intros HF Hb. unfold tensor_get, cp_entry, sum_axis1; cbn [tshape tdata].
  destruct (kr_shape HF) as [_ HnK].
  rewrite <- (kr_row HF Hb).
  apply nth_map_in. unfold nrows in HnK. rewrite HnK.
  now apply ravel_bound.
Qed.

(** What [kruskal_to_unfolded] returns at a mode within range. *)
Lemma kruskal_to_unfolded_eval (R : nat) (factors : list matrix)
  (mode : nat) (Uk : matrix) :
  factor_list R factors -> nth_error factors mode = Some Uk ->
  kruskal_to_unfolded factors (Z.of_nat mode)
  = Ok (Matrix (size (map nrows (remove_nth mode factors)))
          (map (fun a =>
                  map (fun b => zsum (map2 Z.mul a b))
                      (mrows (kr R (remove_nth mode factors))))
               (mrows Uk))).
Proof.
  intros [Hne HF] Hk.
  assert (HUk : factor R Uk).
  { rewrite Forall_forall in HF. eapply HF, nth_error_In, Hk. }
  set (others := remove_nth mode factors).
  assert (HFo : Forall (factor R) others) by now apply Forall_remove_nth.
  destruct (kr_shape HFo) as [[HwfK HRK] HnK].
  assert (HKR : khatri_rao factors (Some (Z.of_nat mode)) None
                = Ok (kr R others)).
  { destruct factors as [|U0 rest]; [congruence|]. unfold khatri_rao.
    inversion HF as [|? ? [_ HR0] _]; subst.
    rewrite (rank_check HF). cbn [skip_matrices].
    pose proof (skip_from_remove (U0 :: rest) 0 mode) as Hskip.
    rewrite Z.add_0_l in Hskip. now rewrite Hskip. }
  unfold kruskal_to_unfolded.
  rewrite (py_getitem_nat _ _ Hk), HKR. cbn [bind].
  rewrite <- HnK. apply dot_transpose; [exact HwfK|].
  destruct HUk as [_ ->]. now rewrite HRK.
Qed.

(** The mode-[mode] unfolding of the reconstructed tensor, row by row. *)
Lemma unfold_reconstruction (R : nat) (factors : list matrix) (mode : nat)
  (Uk : matrix) :
  factor_list R factors -> nth_error factors mode = Some Uk ->
  unfold (Tensor (map nrows factors) (sum_axis1 (kr R factors))) mode
  = Ok (Matrix (size (map nrows (remove_nth mode factors)))
          (map (fun a =>
                  map (fun b => zsum (map2 Z.mul a b))
                      (mrows (kr R (remove_nth mode factors))))
               (mrows Uk))).
Proof.
  intros [Hne HF] Hk.
  set (others := remove_nth mode factors).
  assert (HFo : Forall (factor R) others) by now apply Forall_remove_nth.
  destruct (kr_shape HFo) as [_ HnK].
  unfold unfold; cbn [tshape].
  rewrite (map_nth_error nrows _ _ Hk), <- map_remove_nth.
  fold others. do 2 f_equal.
  rewrite (map_via_seq [] _ (mrows Uk)).
  apply map_ext_in; intros i Hi. apply in_seq in Hi.
  rewrite (map_via_seq [] _ (mrows (kr R others))).
  fold (nrows (kr R others)). rewrite HnK, <- ravel_indices, map_map.
  apply map_ext_in; intros idx Hidx.
  apply in_bounds_indices in Hidx.
  rewrite (kr_row HFo Hidx).
  rewrite (tensor_get_kr HF
             (@in_bounds_insert mode factors Uk i idx Hk (proj2 Hi) Hidx)).
  unfold cp_entry.
  now rewrite (@cp_rows_insert R mode factors Uk i idx Hk Hidx).
Qed.

(** X1: The docstring of [kruskal_to_unfolded] at every mode: on a factor list
    of common rank and a mode [0 <= mode < N], the product of
    [factors[mode]] with the transposed Khatri-Rao product of the other
    factors is the mode-[mode] unfolding of the tensor returned by
    [kruskal_to_tensor], a matrix of shape [(s_mode, prod of the other
    s_i)]. *)
Theorem kruskal_to_unfolded_any_mode (R : nat) (factors : list matrix)
  (mode : nat) :
  factor_list R factors -> (mode < length factors)%nat ->
  exists M,
    kruskal_to_unfolded factors (Z.of_nat mode) = Ok M
    /\ (T <- snd (kruskal_to_tensor factors None None) ;; unfold T mode) = Ok M
    /\ nrows M = nth mode (map nrows factors) 0%nat
    /\ ncols M = size (remove_nth mode (map nrows factors)).
Proof.
  intros HF Hmode.
  destruct (nth_error factors mode) as [Uk|] eqn:Hk;
    [|apply nth_error_None in Hk; lia].
  eexists. split; [exact (kruskal_to_unfolded_eval mode HF Hk)|].
  split; [|split].
  - rewrite (kruskal_to_tensor_plain HF). cbn [snd bind].
    exact (unfold_reconstruction mode HF Hk).
  - unfold nrows at 1; cbn [mrows]. rewrite length_map.
    symmetry. rewrite (nth_map_in nrows factors (ones R) 0%nat Hmode).
    now rewrite (nth_error_nth _ _ _ Hk).
  - cbn [ncols]. now rewrite map_remove_nth.
Qed.

Lemma kruskal_to_unfolded_any_mode_witness :
  exists M,
    kruskal_to_unfolded [sample_A; sample_B; sample_A] 1 = Ok M
    /\ (T <- snd (kruskal_to_tensor [sample_A; sample_B; sample_A] None None) ;;
        unfold T 1) = Ok M
    /\ M = Matrix 9 [[41; 83; 125; 83; 169; 255; 125; 255; 385];
                     [4100; 8300; 12500; 8300; 16900; 25500;
                      12500; 25500; 38500]]%Z.
Proof.
  destruct (@kruskal_to_unfolded_any_mode 2 [sample_A; sample_B; sample_A] 1)
    as (M & HM & HT & _ & _).
  - split; [discriminate|]. repeat constructor.
  - simpl; lia.
  - exists M. split; [exact HM|]. split; [exact HT|].
    vm_compute in HM. now inversion HM.
Defined.

(* ================================================================== *)
(** ** Entries of the reconstruction *)

Lemma kruskal_to_tensor_entries_witness :
  exists T,
    snd (kruskal_to_tensor [sample_A; sample_B] None None) = Ok T
    /\ tensor_get T [2; 1]%nat = 6500%Z.
Proof.
  destruct (@kruskal_to_tensor_entries 2 [sample_A; sample_B] [2; 1]%nat
              factor_list_sample_AB) as (T & HT & Hget).
  - repeat constructor.
  - exists T. split; [exact HT|]. rewrite Hget. reflexivity.
Defined.

Lemma map2_mul_comm (a b : list Z) : map2 Z.mul a b = map2 Z.mul b a.
Proof.
  revert b; induction a as [|x a IH]; intros [|y b]; simpl; auto.
  rewrite IH. f_equal. lia.
Qed.

Lemma scale_columns_row (R : nat) (U : matrix) (w : list Z) (i : nat) :
  factor R U -> length w = R -> (i < nrows U)%nat ->
  nth i (mrows (scale_columns w U)) [] = map2 Z.mul (nth i (mrows U) []) w.
Proof.
  intros [Hwf HR] Hw Hi. unfold scale_columns; cbn [mrows].
  rewrite (nth_map_in _ (mrows U) [] [] Hi).
  symmetry. apply map2_nth; [|congruence].
  unfold wf_matrix in Hwf. rewrite Forall_forall in Hwf.
  apply Hwf, nth_In, Hi.
Qed.

(** Scaling the first factor multiplies the product of the selected rows
    by the weights. *)
Lemma cp_rows_scale_first (R : nat) (factors : list matrix) (w : list Z)
  (idx : list nat) :
  factor_list R factors -> length w = R -> in_bounds idx factors ->
  cp_entry R (scale_first w factors) idx = cp_entry_weighted w R factors idx.
Proof.
  intros [Hne HF] Hw Hb. unfold cp_entry, cp_entry_weighted. f_equal.
  destruct Hb as [|i U0 idx rest Hi Hb]; [congruence|].
  inversion HF as [|? ? HU0 _]; subst.
  cbn [scale_first cp_rows map2 fold_right].
  rewrite (@scale_columns_row (length w) U0 w i HU0 eq_refl Hi).
  rewrite (map2_mul_comm (nth i (mrows U0) []) w).
  apply map2_mul_assoc.
Qed.

Lemma in_bounds_scale_first (factors : list matrix) (w : list Z)
  (idx : list nat) :
  in_bounds idx factors -> in_bounds idx (scale_first w factors).
Proof.
  intros [|i U0 idx' rest Hi Hb]; [constructor|].
  constructor; [now rewrite nrows_scale_columns | exact Hb].
Qed.

(** X4: With weights [w], the entry of the returned tensor at every multi-index
    within its shape is the sum over the rank components [r] of
    [w[r] * U_1[i_1][r] * ... * U_N[i_N][r]]. *)
Theorem kruskal_to_tensor_weighted_entries (R : nat) (factors : list matrix)
  (w : list Z) (idx : list nat) :
  factor_list R factors -> length w = R -> in_bounds idx factors ->
  exists T,
    snd (kruskal_to_tensor factors (Some w) None) = Ok T
    /\ tensor_get T idx = cp_entry_weighted w R factors idx.
Proof.
  intros HF Hw Hb.
  destruct (@kruskal_to_tensor_eval R factors (Some w) None HF Hw I)
    as (K & HK & _ & _ & ->).
  pose proof (factor_list_scale_first w HF) as HF'.
  cbn [weighted] in HK. rewrite (khatri_rao_all HF') in HK.
  inversion HK; subst K. cbn [snd].
  eexists; split; [reflexivity|].
  rewrite <- (nrows_scale_first factors w).
  rewrite (tensor_get_kr (proj2 HF') (in_bounds_scale_first w Hb)).
  now apply cp_rows_scale_first.
Qed.

Lemma kruskal_to_tensor_weighted_entries_witness :
  exists T,
    snd (kruskal_to_tensor [sample_A; sample_B] (Some sample_weights) None)
    = Ok T
    /\ tensor_get T [2; 1]%nat = 19000%Z.
Proof.
  destruct (@kruskal_to_tensor_weighted_entries 2 [sample_A; sample_B]
              sample_weights [2; 1]%nat factor_list_sample_AB eq_refl)
    as (T & HT & Hget).
  - repeat constructor.
  - exists T. split; [exact HT|]. rewrite Hget. reflexivity.
Defined.

(* ================================================================== *)
(** ** [kruskal_to_vec] and the mode-0 unfolding *)

Lemma kruskal_to_vec_plain (R : nat) (factors : list matrix) :
  factor_list R factors ->
  kruskal_to_vec factors = (factors, Ok (sum_axis1 (kr R factors))).
Proof.
  intros HF. unfold kruskal_to_vec. rewrite (kruskal_to_tensor_plain HF).
  cbn [bind]. f_equal.
  destruct (kr_shape (proj2 HF)) as [_ HnK].
  pose proof (size_nrows_nonempty HF) as Hne.
  destruct (map nrows factors) as [|s ss] eqn:E; [congruence|].
  apply unfold_mode0_flat. unfold sum_axis1. now rewrite length_map.
Qed.

(** X5: The vector returned by [kruskal_to_vec] is the matrix returned by
    [kruskal_to_unfolded(factors, 0)] read row after row, and its entry at
    the row-major position of a multi-index is the Kruskal sum
    [sum_r U_1[i_1][r] * ... * U_N[i_N][r]]. *)
Theorem kruskal_to_vec_ravels_unfolded (R : nat) (factors : list matrix) :
  factor_list R factors ->
  exists M v,
    kruskal_to_unfolded factors 0 = Ok M
    /\ kruskal_to_vec factors = (factors, Ok v)
    /\ v = concat (mrows M)
    /\ length v = (nrows M * ncols M)%nat
    /\ forall idx, in_bounds idx factors ->
         nth (ravel (map nrows factors) idx) v 0%Z = cp_entry R factors idx.
Proof.
  intros HFL. pose proof HFL as [Hne HF].
  rewrite (kruskal_to_vec_plain HFL).
  destruct factors as [|U1 rest]; [congruence|].
  inversion HF as [|? ? HU1 Hrest]; subst.
  destruct (kr_shape Hrest) as [[HwfK HRK] HnK].
  unfold kruskal_to_unfolded.
  rewrite py_getitem_head, (khatri_rao_skip0 HF). cbn [bind].
  rewrite dot_transpose;
    [|exact HwfK | destruct HU1 as [_ ->]; now rewrite HRK].
  do 2 eexists. split; [reflexivity|]. split; [reflexivity|].
  cbn [mrows ncols]. split; [|split].
  - now rewrite (kr_cons _ HU1), sum_axis1_kr2.
  - destruct (kr_shape HF) as [_ HnK'].
    unfold sum_axis1, nrows at 1; cbn [mrows].
    rewrite !length_map. fold (nrows (kr R (U1 :: rest))).
    rewrite HnK', HnK. reflexivity.
  - intros idx Hb. exact (tensor_get_kr HF Hb).
Qed.

Lemma kruskal_to_vec_ravels_unfolded_witness :
  exists M v,
    kruskal_to_unfolded [sample_A; sample_B] 0 = Ok M
    /\ kruskal_to_vec [sample_A; sample_B] = ([sample_A; sample_B], Ok v)
    /\ v = concat (mrows M)
    /\ v = [21; 2100; 43; 4300; 65; 6500]%Z.
Proof.
  destruct (@kruskal_to_vec_ravels_unfolded 2 [sample_A; sample_B]
              factor_list_sample_AB) as (M & v & HM & Hv & Hc & _ & _).
  exists M, v. do 3 (split; [assumption|]).
  vm_compute in Hv. now inversion Hv.
Defined.

Lemma khatri_rao_rank_mismatch (factors : list matrix) (mask : option tensor) :
  ranks_disagree factors -> khatri_rao factors None mask = Err ShapeMismatch.
Proof.
  intros (U & V & HU & HV & Hneq).
  destruct factors as [|U0 rest]; [contradiction|].
  unfold khatri_rao.
  destruct (forallb (fun W => ncols W =? ncols U0) (U0 :: rest)) eqn:E;
    [|reflexivity].
  rewrite forallb_forall in E.
  pose proof (E U HU) as EU. pose proof (E V HV) as EV.
  apply Nat.eqb_eq in EU, EV. congruence.
Qed.

(** X6: When the column counts of the factors disagree, [kruskal_to_vec] fails
    with the shape mismatch of the reconstruction and the caller's list is
    as it was. *)
Theorem kruskal_to_vec_rank_mismatch (factors : list matrix) :
  ranks_disagree factors ->
  kruskal_to_vec factors = (factors, Err ShapeMismatch).
Proof.
  intros H. unfold kruskal_to_vec, kruskal_to_tensor.
  now rewrite (khatri_rao_rank_mismatch None H).
Qed.

Lemma kruskal_to_vec_rank_mismatch_witness :
  kruskal_to_vec [sample_A; sample_C]
  = ([sample_A; sample_C], Err ShapeMismatch).
Proof.
  apply (@kruskal_to_vec_rank_mismatch [sample_A; sample_C]).
  exists sample_A, sample_C.
  split; [now left|]. split; [right; now left|]. discriminate.
Defined.

(* ================================================================== *)
(** ** What the weighted call does to the caller's list *)

Lemma nrows_mat_times_vec (U U' : matrix) (w : list Z) :
  mat_times_vec U w = Ok U' -> nrows U' = nrows U.
Proof.
  unfold mat_times_vec, nrows.
  destruct (ncols U =? length w); [|destruct (length w =? 1);
    [|destruct (ncols U =? 1); [|discriminate]]];
    intros H; inversion H; cbn [mrows]; apply length_map.
Qed.

(** X7: Whatever the arguments and whether or not the call fails, only the
    first entry of the caller's list can change: the other entries, the
    length of the list and the row count of every entry are kept. *)
Theorem kruskal_to_tensor_touches_first_only (factors : list matrix)
  (weights : option (list Z)) (mask : option tensor) :
  tl (fst (kruskal_to_tensor factors weights mask)) = tl factors
  /\ length (fst (kruskal_to_tensor factors weights mask)) = length factors
  /\ map nrows (fst (kruskal_to_tensor factors weights mask))
     = map nrows factors.
Proof.
  unfold kruskal_to_tensor.
  destruct weights as [w|]; [|repeat split].
  destruct factors as [|U0 rest]; [repeat split|].
  destruct (mat_times_vec U0 w) as [U0'|e] eqn:E; [|repeat split].
  cbn [fst tl length map]. repeat split.
  now rewrite (nrows_mat_times_vec _ _ E).
Qed.

Lemma nth_repeat_lt (A : Type) (a d : A) (n r : nat) :
  (r < n)%nat -> nth r (repeat a n) d = a.
Proof.
  revert r; induction n as [|n IH]; intros [|r] Hr; simpl; try lia; auto.
  apply IH. lia.
Qed.

Lemma scale_columns_ones (R : nat) (U : matrix) :
  factor R U -> scale_columns (repeat 1%Z R) U = U.
Proof.
  intros [Hwf HR]. destruct U as [n rows]. unfold scale_columns, wf_matrix in *.
  cbn [ncols mrows] in *. subst n. f_equal.
  etransitivity; [|apply map_id].
  apply map_ext_in; intros row Hrow.
  rewrite Forall_forall in Hwf. rewrite <- (Hwf row Hrow).
  etransitivity; [|exact (map_nth_seq 0%Z row)].
  apply map_ext_in; intros r Hr. apply in_seq in Hr.
  rewrite nth_repeat_lt by lia. lia.
Qed.

(** X11: Weights that are all 1 are neutral: on a factor list of rank [R] the
    call with [weights = [1, ..., 1]] returns what the call without weights
    returns and leaves a list equal to the one it was given. *)
Theorem unit_weights_neutral (R : nat) (factors : list matrix)
  (mask : option tensor) :
  factor_list R factors ->
  kruskal_to_tensor factors (Some (repeat 1%Z R)) mask
  = kruskal_to_tensor factors None mask.
Proof.
  intros [Hne HF]. destruct factors as [|U0 rest]; [congruence|].
  inversion HF as [|? ? HU0 _]; subst.
  unfold kruskal_to_tensor.
  rewrite (@mat_times_vec_scale R U0 (repeat 1%Z R) HU0 (repeat_length _ _)).
  now rewrite (scale_columns_ones HU0).
Qed.

Lemma unit_weights_neutral_witness :
  kruskal_to_tensor [sample_A; sample_B] (Some [1; 1]%Z) (Some sample_mask)
  = kruskal_to_tensor [sample_A; sample_B] None (Some sample_mask).
Proof.
  exact (@unit_weights_neutral 2 [sample_A; sample_B] (Some sample_mask)
           factor_list_sample_AB).
Defined.

Lemma scale_columns_twice (R : nat) (U : matrix) (w w' : list Z) :
  ncols U = R -> length w = R -> length w' = R ->
  scale_columns w' (scale_columns w U) = scale_columns (map2 Z.mul w w') U.
Proof.
  intros HR Hw Hw'. unfold scale_columns; cbn [ncols mrows]. f_equal.
  rewrite map_map. apply map_ext; intros row.
  apply map_ext_in; intros r Hr. apply in_seq in Hr.
  rewrite (map2_nth Z.mul 0%Z 0%Z w w' Hw Hw').
  rewrite (nth_map_in (fun r => (nth r row 0 * nth r w 0)%Z)
             (seq 0 (ncols U)) 0%nat 0%Z) by (rewrite length_seq; lia).
  rewrite (nth_map_in (fun r => (nth r w 0 * nth r w' 0)%Z)
             (seq 0 R) 0%nat 0%Z) by (rewrite length_seq; lia).
  rewrite !seq_nth by lia. cbn [Nat.add]. lia.
Qed.

(** X8: The weighted call is not idempotent on the caller's list: a second call
    with the same list and the same weights [w] meets the factor scaled by
    the first call, leaves it scaled by [w * w], and returns the tensor of
    the original factors with weights [w * w]. *)
Theorem weighted_calls_compound (R : nat) (factors : list matrix)
  (w : list Z) (mask : option tensor) :
  factor_list R factors -> length w = R ->
  mask_for (map nrows factors) mask ->
  let after_first := fst (kruskal_to_tensor factors (Some w) mask) in
  let second := kruskal_to_tensor after_first (Some w) mask in
  fst second = scale_first (map2 Z.mul w w) factors
  /\ snd second = snd (kruskal_to_tensor factors (Some (map2 Z.mul w w)) mask)
  /\ exists T, snd second = Ok T.
Proof.
  intros HF Hw Hm after_first second.
  assert (Hww : length (map2 Z.mul w w) = R)
    by (rewrite map2_length, Hw; apply Nat.min_id).
  assert (Hfirst : after_first = scale_first w factors).
  { unfold after_first.
    destruct (@kruskal_to_tensor_eval R factors (Some w) mask HF Hw Hm)
      as (K & _ & _ & _ & ->). reflexivity. }
  pose proof (factor_list_scale_first w HF) as HF'.
  assert (Hm' : mask_for (map nrows (scale_first w factors)) mask)
    by now rewrite nrows_scale_first.
  destruct (@kruskal_to_tensor_eval R (scale_first w factors) (Some w) mask
              HF' Hw Hm') as (K2 & HK2 & _ & _ & Hsecond).
  destruct (@kruskal_to_tensor_eval R factors (Some (map2 Z.mul w w)) mask
              HF Hww Hm) as (K3 & HK3 & _ & _ & Hsq).
  assert (Hlist : scale_first w (scale_first w factors)
                  = scale_first (map2 Z.mul w w) factors).
  { destruct HF as [Hne HFa]. destruct factors as [|U0 rest]; [congruence|].
    inversion HFa as [|? ? [_ HR0] _]; subst. cbn [scale_first]. f_equal.
    now apply (@scale_columns_twice (ncols U0)). }
  cbn [weighted] in *. unfold second. rewrite Hfirst, Hsecond, Hsq.
  cbn [fst snd]. rewrite Hlist in HK2 |- *. rewrite HK3 in HK2.
  inversion HK2; subst K2. rewrite nrows_scale_first.
  split; [reflexivity|]. split; [reflexivity|]. eauto.
Qed.

Lemma weighted_calls_compound_witness :
  fst (kruskal_to_tensor
         (fst (kruskal_to_tensor [sample_A; sample_B] (Some sample_weights)
                 None))
         (Some sample_weights) None)
  = [Matrix 2 [[4; 18]; [12; 36]; [20; 54]]%Z; sample_B]
  /\ snd (kruskal_to_tensor
            (fst (kruskal_to_tensor [sample_A; sample_B]
                    (Some sample_weights) None))
            (Some sample_weights) None)
     = snd (kruskal_to_tensor [sample_A; sample_B] (Some [4; 9]%Z) None).
Proof.
  destruct (@weighted_calls_compound 2 [sample_A; sample_B] sample_weights
              None factor_list_sample_AB eq_refl I) as (Hl & Hr & _).
  split; [exact Hl | exact Hr].
Defined.

Lemma ranks_disagree_head (U0 U0' : matrix) (rest : list matrix) :
  ncols U0' = ncols U0 ->
  ranks_disagree (U0 :: rest) -> ranks_disagree (U0' :: rest).
Proof.
  intros Hc (U & V & HU & HV & Hneq).
  destruct HU as [<-|HU], HV as [<-|HV].
  - congruence.
  - exists U0', V. rewrite Hc. repeat split; [now left | now right | exact Hneq].
  - exists U, U0'. rewrite Hc. repeat split; [now right | now left | exact Hneq].
  - exists U, V. repeat split; [now right | now right | exact Hneq].
Qed.

(** X9: The overwrite comes before the failure: when the column counts of the
    factors disagree, the weighted call fails with the shape mismatch, yet
    the first entry of the caller's list has already been replaced by the
    scaled factor. *)
Theorem weighted_call_fails_after_overwrite (U0 : matrix)
  (rest : list matrix) (w : list Z) (mask : option tensor) :
  wf_matrix U0 -> length w = ncols U0 -> ranks_disagree (U0 :: rest) ->
  kruskal_to_tensor (U0 :: rest) (Some w) mask
  = (scale_columns w U0 :: rest, Err ShapeMismatch).
Proof.
  intros Hwf Hw Hdis. unfold kruskal_to_tensor.
  rewrite (@mat_times_vec_scale (ncols U0) U0 w (conj Hwf eq_refl) Hw).
  rewrite (@khatri_rao_rank_mismatch (scale_columns w U0 :: rest) mask);
    [reflexivity|].
  now apply (@ranks_disagree_head U0).
Qed.

Lemma weighted_call_fails_after_overwrite_witness :
  kruskal_to_tensor [sample_A; sample_C] (Some sample_weights) None
  = ([Matrix 2 [[2; 6]; [6; 12]; [10; 18]]%Z; sample_C], Err ShapeMismatch).
Proof.
  apply (@weighted_call_fails_after_overwrite sample_A [sample_C]
           sample_weights None).
  - repeat constructor.
  - reflexivity.
  - exists sample_A, sample_C.
    split; [now left|]. split; [right; now left|]. discriminate.
Defined.

(* ================================================================== *)
(** ** Range of the mode *)

(** X12: A mode outside [-N <= mode < N] fails with an index error, on either
    side of the range; in particular every mode fails on the empty list. *)
Theorem kruskal_to_unfolded_mode_range (factors : list matrix) (mode : Z) :
  (mode < - Z.of_nat (length factors) \/ Z.of_nat (length factors) <= mode)%Z ->
  kruskal_to_unfolded factors mode = Err IndexError.
Proof.
  intros Hmode. unfold kruskal_to_unfolded, py_getitem.
  destruct (Z.ltb_spec mode 0) as [Hneg|Hpos].
  - destruct (Z.leb_spec 0 (mode + Z.of_nat (length factors))) as [Hge|_];
      [lia | reflexivity].
  - destruct (Z.ltb_spec mode (Z.of_nat (length factors))) as [Hlt|_]; [lia|].
    now rewrite andb_false_r.
Qed.

Lemma kruskal_to_unfolded_mode_range_witness :
  kruskal_to_unfolded [sample_A; sample_B] (-3) = Err IndexError
  /\ kruskal_to_unfolded [] 0 = Err IndexError.
Proof.
  split.
  - apply (@kruskal_to_unfolded_mode_range [sample_A; sample_B] (-3)).
    left. vm_compute. reflexivity.
  - apply (@kruskal_to_unfolded_mode_range [] 0).
    right. vm_compute. discriminate.
Defined.

(* ================================================================== *)
(** ** Weights and mask together *)

(** X13: With both weights and a mask, the call returns the tensor of the
    weighted call without mask multiplied entry by entry with the mask. *)
Theorem weighted_masking_law (R : nat) (factors : list matrix) (w : list Z)
  (m : tensor) :
  factor_list R factors -> length w = R ->
  wf_tensor m -> broadcastable (tshape m) (map nrows factors) = true ->
  exists T0 T,
    snd (kruskal_to_tensor factors (Some w) None) = Ok T0
    /\ tensor_times T0 m = Ok T
    /\ snd (kruskal_to_tensor factors (Some w) (Some m)) = Ok T.
Proof.
  intros HF Hw Hwf Hb.
  pose proof (factor_list_scale_first w HF) as HF'.
  assert (Hb' : broadcastable (tshape m) (map nrows (scale_first w factors))
                = true) by now rewrite nrows_scale_first.
  destruct (khatri_rao_masked HF' Hwf Hb') as (mflat & Hbm & _ & HK).
  rewrite nrows_scale_first in Hbm.
  destruct (@kruskal_to_tensor_eval R factors (Some w) (Some m) HF Hw
              (conj Hwf Hb)) as (K & HK' & _ & _ & ->).
  destruct (@kruskal_to_tensor_eval R factors (Some w) None HF Hw I)
    as (K0 & HK0 & _ & _ & ->).
  cbn [weighted] in HK', HK0. rewrite HK in HK'. inversion HK'; subst K.
  rewrite (khatri_rao_all HF') in HK0. inversion HK0; subst K0.
  cbn [snd]. do 2 eexists. split; [reflexivity|]. split; [|reflexivity].
  unfold tensor_times; cbn [tshape tdata]. rewrite Hbm; cbn [bind].
  now rewrite sum_axis1_apply_mask.
Qed.

Lemma weighted_masking_law_witness :
  exists T0 T,
    snd (kruskal_to_tensor [sample_A; sample_B] (Some sample_weights) None)
    = Ok T0
    /\ tensor_times T0 sample_mask = Ok T
    /\ snd (kruskal_to_tensor [sample_A; sample_B] (Some sample_weights)
              (Some sample_mask)) = Ok T
    /\ T = Tensor [3; 2] [62; 6200; 0; 0; 380; 38000]%Z.
Proof.
  destruct (@weighted_masking_law 2 [sample_A; sample_B] sample_weights
              sample_mask factor_list_sample_AB eq_refl eq_refl eq_refl)
    as (T0 & T & H0 & Ht & HT).
  exists T0, T. do 3 (split; [assumption|]).
  vm_compute in HT. now inversion HT.
Defined.

(* ================================================================== *)
(** ** Refolding an unfolding *)

Lemma ravel_within (shape : list nat) :
  forall idx, Forall2 lt idx shape -> (ravel shape idx < size shape)%nat.
Proof.
  induction shape as [|s ss IH]; intros idx H; inversion H; subst; simpl;
    [lia|].
  specialize (IH _ H4). nia.
Qed.

Lemma indices_within (shape : list nat) :
  forall idx, In idx (indices shape) -> Forall2 lt idx shape.
Proof.
  induction shape as [|s ss IH]; intros idx Hin; simpl in Hin.
  - destruct Hin as [<-|[]]. constructor.
  - apply in_flat_map in Hin. destruct Hin as (i & Hi & Hin).
    apply in_map_iff in Hin. destruct Hin as (idx' & <- & Hin).
    apply in_seq in Hi. constructor; [lia | now apply IH].
Qed.

(** The multi-index found at the row-major position of [idx] is [idx]. *)
Lemma nth_ravel_indices (shape : list nat) :
  forall idx, Forall2 lt idx shape ->
  nth (ravel shape idx) (indices shape) [] = idx.
Proof.
  induction shape as [|s ss IH]; intros idx H; inversion H as [|i s' idx' ss' Hi Hrest];
    subst; [reflexivity|].
  cbn [ravel indices]. rewrite flat_map_concat_map.
  rewrite (@nth_concat_const _ [] (size ss)).
  - rewrite (nth_map_in (fun i => map (cons i) (indices ss)) (seq 0 s) 0%nat [])
      by now rewrite length_seq.
    rewrite seq_nth by assumption. cbn [Nat.add].
    rewrite (nth_map_in (cons i) (indices ss) [] [])
      by (rewrite indices_length; now apply ravel_within).
    now rewrite (IH _ Hrest).
  - apply Forall_forall; intros l Hl.
    apply in_map_iff in Hl; destruct Hl as (j & <- & _).
    now rewrite length_map, indices_length.
  - now apply ravel_within.
Qed.

Lemma insert_remove_nth (k : nat) :
  forall (idx shape : list nat) (d : nat),
    Forall2 lt idx shape -> nth_error shape k = Some d ->
    insert_nth k (nth k idx 0%nat) (remove_nth k idx) = idx
    /\ (nth k idx 0 < d)%nat
    /\ Forall2 lt (remove_nth k idx) (remove_nth k shape).
Proof.
  induction k as [|k IH]; intros idx shape d H Hk;
    inversion H as [|i s idx' ss Hi Hrest]; subst; try discriminate;
    cbn [nth_error] in Hk.
  - inversion Hk; subst. cbn [nth remove_nth insert_nth].
    destruct idx'; repeat split; assumption.
  - destruct (IH idx' ss d Hrest Hk) as (Hins & Hlt & Hrem).
    cbn [nth remove_nth insert_nth]. rewrite Hins.
    repeat split; [exact Hlt | now constructor].
Qed.

(** Folding the mode-[k] unfolding of a tensor at mode [k] gives the tensor
    back. *)
Lemma fold_unfold (T : tensor) (k : nat) (M : matrix) :
  wf_tensor T -> unfold T k = Ok M ->
  fold (concat (mrows M)) k (tshape T) = Ok T.
Proof.
  destruct T as [shape data]. unfold wf_tensor, unfold, fold; cbn [tshape tdata].
  intros Hwf HM. destruct (nth_error shape k) as [d|] eqn:Hk; [|discriminate].
  inversion HM; subst M; clear HM. cbn [mrows].
  set (rest := remove_nth k shape).
  set (rows := map _ (seq 0 d)).
  assert (Hrows : Forall (fun r => length r = size rest) rows).
  { apply Forall_forall; intros r Hr. unfold rows in Hr.
    apply in_map_iff in Hr; destruct Hr as (i & <- & _).
    now rewrite length_map, indices_length. }
  assert (Hlen : length (concat rows) = size (d :: rest)).
  { rewrite (concat_length_const Hrows). unfold rows.
    now rewrite length_map, length_seq. }
  rewrite Hlen, Nat.eqb_refl. do 2 f_equal.
  etransitivity; [|exact (ravel_enumerates shape data Hwf)].
  apply map_ext_in; intros idx Hin.
  apply indices_within in Hin.
  destruct (insert_remove_nth k Hin Hk) as (Hins & Hlt & Hrem).
  cbn [ravel]. fold rest.
  rewrite (nth_concat_const 0%Z Hrows) by now apply ravel_within.
  unfold rows.
  rewrite (nth_map_in _ (seq 0 d) 0%nat []) by now rewrite length_seq.
  rewrite seq_nth by assumption. cbn [Nat.add].
  rewrite (nth_map_in _ (indices rest) [] 0%Z)
    by (rewrite indices_length; now apply ravel_within).
  cbv beta. unfold rest. rewrite (nth_ravel_indices Hrem), Hins. reflexivity.
Qed.

(** X2: The round trip noted in the docstring of [kruskal_to_tensor]: the
    tensor it returns is the unfolding computed by [kruskal_to_unfolded]
    folded back, at mode 0 and at every other mode within range. *)
Theorem refold_kruskal_to_unfolded (R : nat) (factors : list matrix)
  (mode : nat) :
  factor_list R factors -> (mode < length factors)%nat ->
  exists M T,
    kruskal_to_unfolded factors (Z.of_nat mode) = Ok M
    /\ snd (kruskal_to_tensor factors None None) = Ok T
    /\ fold (concat (mrows M)) mode (map nrows factors) = Ok T.
Proof.
  intros HF Hmode.
  destruct (nth_error factors mode) as [Uk|] eqn:Hk;
    [|apply nth_error_None in Hk; lia].
  rewrite (kruskal_to_unfolded_eval mode HF Hk).
  rewrite (kruskal_to_tensor_plain HF). cbn [snd].
  do 2 eexists. split; [reflexivity|]. split; [reflexivity|].
  apply (@fold_unfold (Tensor (map nrows factors) (sum_axis1 (kr R factors)))
           mode _); [|exact (unfold_reconstruction mode HF Hk)].
  unfold wf_tensor, sum_axis1; cbn [tshape tdata].
  rewrite length_map. exact (proj2 (kr_shape (proj2 HF))).
Qed.

Lemma refold_kruskal_to_unfolded_witness :
  exists M T,
    kruskal_to_unfolded [sample_A; sample_B; sample_A] 2 = Ok M
    /\ snd (kruskal_to_tensor [sample_A; sample_B; sample_A] None None) = Ok T
    /\ fold (concat (mrows M)) 2 [3; 2; 3] = Ok T
    /\ tshape T = [3; 2; 3]%nat.
Proof.
  destruct (@refold_kruskal_to_unfolded 2 [sample_A; sample_B; sample_A] 2)
    as (M & T & HM & HT & Hfold).
  - split; [discriminate|]. repeat constructor.
  - simpl; lia.
  - exists M, T. do 3 (split; [assumption|]).
    vm_compute in HT. now inversion HT.
Defined.

(* ================================================================== *)
(** ** Weights of the wrong length *)

(** X10: A weight vector that cannot be broadcast against the first factor (its
    length is neither the column count nor 1, and the factor has more than
    one column or none) makes the call fail before the assignment: the
    caller's list is as it was. *)
Theorem bad_weights_fail_before_overwrite (U0 : matrix) (rest : list matrix)
  (w : list Z) (mask : option tensor) :
  length w <> ncols U0 -> length w <> 1%nat -> ncols U0 <> 1%nat ->
  kruskal_to_tensor (U0 :: rest) (Some w) mask
  = (U0 :: rest, Err BroadcastError).
Proof.
  intros Hw H1 HU. unfold kruskal_to_tensor, mat_times_vec.
  destruct (Nat.eqb_spec (ncols U0) (length w)) as [E|_]; [congruence|].
  destruct (Nat.eqb_spec (length w) 1) as [E|_]; [congruence|].
  destruct (Nat.eqb_spec (ncols U0) 1) as [E|_]; [congruence|].
  reflexivity.
Qed.

Lemma bad_weights_fail_before_overwrite_witness :
  kruskal_to_tensor [sample_A; sample_B] (Some [2; 3; 4]%Z) None
  = ([sample_A; sample_B], Err BroadcastError).
Proof.
  apply (@bad_weights_fail_before_overwrite sample_A [sample_B] [2; 3; 4]%Z
           None); simpl; lia.
Defined.
